(** * MyVideoPlayer (src/main.cpp): a shallow embedding and its properties

    The program is a thin shim over GStreamer and GLib.  Every call into
    those libraries, every write to [std::cout] / [std::cerr] and every
    thread operation is recorded as an [effect]; the member functions of
    [class MyVideoPlayer] become computations of a small state-and-trace
    monad over the object's fields.  The threads are put together in
    [Module Process] as an event-driven machine over a schedule. *)

From Stdlib Require Import ZArith List Bool Lia.
From Stdlib Require Import Strings.Ascii Strings.String Numbers.DecimalString.
Import ListNotations.

Local Open Scope string_scope.
Local Open Scope Z_scope.

(* ===================================================================== *)
(** ** Characters, strings and [std::stoi] *)
(* ===================================================================== *)

Definition endl : string := String (ascii_of_nat 10) EmptyString.

(** [operator<<(std::ostream&, int)]: decimal, with a leading [-] for a
    negative value. *)
Definition show_int (z : Z) : string := NilZero.string_of_int (Z.to_int z).

Definition INT_MAX : Z := 2147483647.
Definition INT_MIN : Z := -2147483648.

Definition in_int_range (v : Z) : bool := (INT_MIN <=? v) && (v <=? INT_MAX).

(** [isspace] in the "C" locale: space and the controls 9..13. *)
Definition isspace (c : ascii) : bool :=
  let n := nat_of_ascii c in
  (n =? 32)%nat || ((9 <=? n)%nat && (n <=? 13)%nat).

(** A decimal digit's value, [None] for any other character. *)
Definition digit_of (c : ascii) : option Z :=
  let n := nat_of_ascii c in
  if ((48 <=? n)%nat && (n <=? 57)%nat) then Some (Z.of_nat n - 48) else None.

Definition isdigit (c : ascii) : bool :=
  match digit_of c with Some _ => true | None => false end.

(** [std::string::size], [operator[]] at position 0 and [substr(1)]
    (the latter is only reached on a string of two characters or more). *)
Definition size (s : string) : Z := Z.of_nat (String.length s).

Definition at0 (s : string) : ascii :=
  match s with
  | EmptyString => zero          (* the terminating NUL *)
  | String c _ => c
  end.

Definition substr1 (s : string) : string :=
  match s with
  | EmptyString => EmptyString
  | String _ rest => rest
  end.

(** [strtol(nptr, &endptr, 10)]: skip white space, take an optional sign,
    then the longest run of digits.  The value is accumulated left to
    right, as the C library does; the range check is made on the exact
    value afterwards.  A character that is no digit (an embedded NUL
    included, where [c_str()] would end the text) ends the run. *)
Fixpoint skip_space (s : string) : string :=
  match s with
  | String c rest => if isspace c then skip_space rest else s
  | EmptyString => s
  end.

Fixpoint strtol_digits (s : string) (acc : Z) : Z :=
  match s with
  | String c rest =>
      match digit_of c with
      | Some d => strtol_digits rest (acc * 10 + d)
      | None => acc
      end
  | EmptyString => acc
  end.

Definition starts_with_digit (s : string) : bool :=
  match s with
  | String c _ => isdigit c
  | EmptyString => false
  end.

(** [None] when no conversion could be performed ([endptr == nptr]). *)
Definition strtol10 (s : string) : option Z :=
  let s1 := skip_space s in
  let (neg, s2) :=
    match s1 with
    | String c r =>
        if Ascii.eqb c "-" then (true, r)
        else if Ascii.eqb c "+" then (false, r)
        else (false, s1)
    | EmptyString => (false, s1)
    end in
  if starts_with_digit s2
  then Some (if neg then - strtol_digits s2 0 else strtol_digits s2 0)
  else None.

(** [std::stoi(str)] either returns an [int] or throws one of two
    exceptions. *)
Inductive stoi_result : Type :=
| stoi_value (v : Z)
| invalid_argument
| out_of_range.

Definition stoi (s : string) : stoi_result :=
  match strtol10 s with
  | None => invalid_argument
  | Some v => if in_int_range v then stoi_value v else out_of_range
  end.

(* ===================================================================== *)
(** ** The external engine and the effects of the program *)
(* ===================================================================== *)

(** Objects of the two libraries are known by an identifier; a C pointer
    to one is an [option], [None] being [nullptr]. *)
Definition GstElement := nat.
Definition GMainLoop := nat.
Definition GstObject := nat.

Inductive GstState : Type :=
| GST_STATE_VOID_PENDING
| GST_STATE_NULL
| GST_STATE_READY
| GST_STATE_PAUSED
| GST_STATE_PLAYING.

Definition gst_element_state_get_name (s : GstState) : string :=
  match s with
  | GST_STATE_VOID_PENDING => "VOID_PENDING"
  | GST_STATE_NULL => "NULL"
  | GST_STATE_READY => "READY"
  | GST_STATE_PAUSED => "PAUSED"
  | GST_STATE_PLAYING => "PLAYING"
  end.

(** A tag list, as far as the program reads it: the language code. *)
Record GstTagList : Type := { GST_TAG_LANGUAGE_CODE : option string }.

(** A message on the pipeline's bus.  [GST_MESSAGE_ERROR] carries what
    [gst_message_parse_error] hands back (either may be null);
    [GST_MESSAGE_OTHER] stands for every kind the switch leaves to
    [default]. *)
Inductive GstMessage : Type :=
| GST_MESSAGE_ERROR (err : option string) (debug : option string)
| GST_MESSAGE_EOS
| GST_MESSAGE_STATE_CHANGED (src : option GstObject)
    (old current pending : GstState)
| GST_MESSAGE_OTHER (kind : nat) (src : option GstObject).

Inductive thread_name : Type := infoThread | inputThread.

(** What [gst_object_unref] is called on: the pipeline, or the bus taken
    from it. *)
Inductive gst_ref : Type :=
| ref_element (p : option GstElement)
| ref_bus (p : option GstElement).

Inductive effect : Type :=
| cout (text : string)
| cerr (text : string)
| gst_init
| gst_element_factory_make (factory name : string)
| g_object_set_string (obj : option GstElement) (prop value : string)
| g_object_set_int (obj : option GstElement) (prop : string) (value : Z)
| g_object_get_int (obj : option GstElement) (prop : string)
| gst_element_get_bus (obj : option GstElement)
| gst_bus_add_watch (obj : option GstElement)
| g_main_loop_new
| g_main_loop_run (loop : option GMainLoop)
| g_main_loop_quit (loop : option GMainLoop)
| g_main_loop_unref (loop : option GMainLoop)
| gst_element_set_state (obj : option GstElement) (s : GstState)
| gst_object_unref (r : gst_ref)
| g_signal_emit_by_name (obj : option GstElement) (signal : string) (i : Z)
| gst_tag_list_unref
| g_free
| g_clear_error
| sleep_for_seconds (n : Z)
| thread_start (t : thread_name)
| thread_detach (t : thread_name)
| thread_join (t : thread_name).

(** What the engine answers.  The program cannot influence these; they are
    the inputs of the model besides the command line and the schedule. *)
Record Engine : Type := {
  playbin : option GstElement;          (* gst_element_factory_make *)
  new_loop : GMainLoop;                 (* g_main_loop_new *)
  n_video : Z;
  n_audio : Z;
  n_text : Z;
  tags_of : string -> Z -> option GstTagList   (* by signal name and index *)
}.

(* ===================================================================== *)
(** ** The object and the monad of its member functions *)
(* ===================================================================== *)

(** The fields of [class MyVideoPlayer], and with them the one piece of
    GLib state the program's control flow reads back: whether the main
    loop is running ([g_main_loop_is_running]). *)
Record MyVideoPlayer : Type := {
  m_streamUrl : string;
  m_pipeline : option GstElement;
  m_mainloop : option GMainLoop;
  m_quit : bool;
  loop_is_running : bool
}.

Definition MyVideoPlayer_new (url : string) : MyVideoPlayer :=
  {| m_streamUrl := url; m_pipeline := None; m_mainloop := None;
     m_quit := false; loop_is_running := false |}.

Definition set_pipeline (p : option GstElement) (o : MyVideoPlayer) :=
  {| m_streamUrl := m_streamUrl o; m_pipeline := p;
     m_mainloop := m_mainloop o; m_quit := m_quit o;
     loop_is_running := loop_is_running o |}.

Definition set_mainloop (l : option GMainLoop) (o : MyVideoPlayer) :=
  {| m_streamUrl := m_streamUrl o; m_pipeline := m_pipeline o;
     m_mainloop := l; m_quit := m_quit o;
     loop_is_running := loop_is_running o |}.

Definition set_quit (b : bool) (o : MyVideoPlayer) :=
  {| m_streamUrl := m_streamUrl o; m_pipeline := m_pipeline o;
     m_mainloop := m_mainloop o; m_quit := b;
     loop_is_running := loop_is_running o |}.

Definition set_running (b : bool) (o : MyVideoPlayer) :=
  {| m_streamUrl := m_streamUrl o; m_pipeline := m_pipeline o;
     m_mainloop := m_mainloop o; m_quit := m_quit o;
     loop_is_running := b |}.

(** A member function: from the object to a result, the object afterwards
    and the effects it performed, in order. *)
Definition M (A : Type) : Type := MyVideoPlayer -> A * MyVideoPlayer * list effect.

Definition ret {A} (a : A) : M A := fun o => (a, o, []).

Definition bind {A B} (m : M A) (k : A -> M B) : M B :=
  fun o =>
    let '(a, o1, t1) := m o in
    let '(b, o2, t2) := k a o1 in
    (b, o2, (t1 ++ t2)%list).

Definition emit (e : effect) : M unit := fun o => (tt, o, [e]).
Definition this : M MyVideoPlayer := fun o => (o, o, []).
Definition modify (f : MyVideoPlayer -> MyVideoPlayer) : M unit :=
  fun o => (tt, f o, []).

Declare Scope player_scope.
Delimit Scope player_scope with player.
Notation "x <- m ;; k" := (bind m (fun x => k))
  (at level 61, m at next level, right associativity) : player_scope.
Notation "m ;; k" := (bind m (fun _ => k))
  (at level 61, right associativity) : player_scope.
Local Open Scope player_scope.

Definition value_of {A} (r : A * MyVideoPlayer * list effect) : A := fst (fst r).
Definition object_of {A} (r : A * MyVideoPlayer * list effect) : MyVideoPlayer :=
  snd (fst r).
Definition effects_of {A} (r : A * MyVideoPlayer * list effect) : list effect :=
  snd r.

(** [g_main_loop_quit(m_mainloop)]: the loop stops running.  On a null
    loop GLib's precondition check returns at once. *)
Definition mainloop_quit : M unit :=
  o <- this ;;
  emit (g_main_loop_quit (m_mainloop o)) ;;
  match m_mainloop o with
  | Some _ => modify (set_running false)
  | None => ret tt
  end.

(* ===================================================================== *)
(** ** Track switching and the command interpreter *)
(* ===================================================================== *)

Definition switchAudio (trackId : Z) : M unit :=
  o <- this ;;
  emit (g_object_set_int (m_pipeline o) "current-audio" trackId) ;;
  emit (cout ("Switched to audio track #" ++ show_int trackId ++ endl)).

Definition switchSubtitle (trackId : Z) : M unit :=
  o <- this ;;
  emit (g_object_set_int (m_pipeline o) "current-text" trackId) ;;
  emit (cout ("Switched to subtitle track #" ++ show_int trackId ++ endl)).

(** How one pass through the body of the [while] ends. *)
Inductive control : Type := loop_break | loop_continue.

Definition is_a_or_s (c : ascii) : bool := Ascii.eqb c "a" || Ascii.eqb c "s".

(** The body of the loop in [handleUserInput], for the line [cmd]. *)
Definition handle_line (cmd : string) : M control :=
  if String.eqb cmd "q" then
    emit (cout ("Shutting down..." ++ endl)) ;;
    mainloop_quit ;;
    ret loop_break
  else if (1 <? size cmd) && is_a_or_s (at0 cmd) then
    match stoi (substr1 cmd) with
    | stoi_value trackId =>
        (if Ascii.eqb (at0 cmd) "a"
         then switchAudio trackId
         else switchSubtitle trackId) ;;
        ret loop_continue
    | invalid_argument | out_of_range =>
        emit (cout ("Invalid track number" ++ endl)) ;;
        ret loop_continue
    end
  else ret loop_continue.

(** [handleUserInput]: the banner, then the [while] loop.  Standard input
    is the list of lines still to come ([std::getline] fails on the empty
    list); the lines left unread are returned.  [m_quit] is read from the
    object at the head of every pass; the main thread's write to it is
    placed by [Module Process]. *)
Fixpoint handleUserInput_loop (lines : list string) : M (list string) :=
  o <- this ;;
  if m_quit o then ret lines
  else
    match lines with
    | [] => ret []
    | cmd :: rest =>
        c <- handle_line cmd ;;
        match c with
        | loop_break => ret rest
        | loop_continue => handleUserInput_loop rest
        end
    end.

Definition handleUserInput_banner : M unit :=
  emit (cout "Controls:") ;;
  emit (cout "  'a0', 'a1'... = Audio track") ;;
  emit (cout "  's0', 's1'... = Subtitle track") ;;
  emit (cout "  'q'           = Quit").

Definition handleUserInput (lines : list string) : M (list string) :=
  handleUserInput_banner ;;
  handleUserInput_loop lines.

(* ===================================================================== *)
(** ** The bus handler *)
(* ===================================================================== *)

Definition or_else (s : option string) (dflt : string) : string :=
  match s with Some x => x | None => dflt end.

Definition same_object (a b : option nat) : bool :=
  match a, b with
  | Some x, Some y => Nat.eqb x y
  | None, None => true
  | _, _ => false
  end.

(** [handleBusMessage]; the result is the [gboolean] handed back to GLib
    ([TRUE] keeps the watch installed). *)
Definition handleBusMessage (msg : GstMessage) : M bool :=
  match msg with
  | GST_MESSAGE_ERROR err debug =>
      emit (cerr ("PLAYER ERROR: " ++ or_else err "Unknown error"
                  ++ "Debug: " ++ or_else debug "No debug info" ++ endl)) ;;
      emit g_clear_error ;;
      emit g_free ;;
      mainloop_quit ;;
      ret true
  | GST_MESSAGE_EOS =>
      emit (cout ("End of Stream reached" ++ endl)) ;;
      mainloop_quit ;;
      ret true
  | GST_MESSAGE_STATE_CHANGED src old current pending =>
      o <- this ;;
      (if same_object src (m_pipeline o)
       then emit (cout ("State: " ++ gst_element_state_get_name old
                        ++ "State: " ++ gst_element_state_get_name current
                        ++ endl))
       else ret tt) ;;
      ret true
  | GST_MESSAGE_OTHER _ _ => ret true
  end.

(* ===================================================================== *)
(** ** Construction and teardown *)
(* ===================================================================== *)

Definition constructor (url : string) : MyVideoPlayer * list effect :=
  (MyVideoPlayer_new url,
   [cout ("MyVideoPlayer initializing for: " ++ url ++ endl)]).

Definition setupPlayer (eng : Engine) : M bool :=
  emit gst_init ;;
  emit (gst_element_factory_make "playbin" "my-player") ;;
  modify (set_pipeline (playbin eng)) ;;
  o <- this ;;
  match m_pipeline o with
  | None =>
      emit (cerr ("FATAL: Could not create playbin!" ++ endl)) ;;
      ret false
  | Some _ =>
      emit (g_object_set_string (m_pipeline o) "uri" (m_streamUrl o)) ;;
      emit (g_object_set_int (m_pipeline o) "latency" 500) ;;
      emit (g_object_set_int (m_pipeline o) "buffer-size" (4 * 1024 * 1024)) ;;
      emit (g_object_set_int (m_pipeline o) "ring-buffer-max-size" 0) ;;
      emit (gst_element_get_bus (m_pipeline o)) ;;
      emit (gst_bus_add_watch (m_pipeline o)) ;;
      emit (gst_object_unref (ref_bus (m_pipeline o))) ;;
      emit g_main_loop_new ;;
      modify (set_mainloop (Some (new_loop eng))) ;;
      modify (set_running false) ;;
      emit (cout ("Player setup complete. Ready to play!" ++ endl)) ;;
      ret true
  end.

Definition cleanup : M unit :=
  o <- this ;;
  match m_pipeline o with
  | Some _ =>
      emit (gst_element_set_state (m_pipeline o) GST_STATE_NULL) ;;
      emit (gst_object_unref (ref_element (m_pipeline o))) ;;
      modify (set_pipeline None)
  | None => ret tt
  end ;;
  o <- this ;;
  match m_mainloop o with
  | Some _ =>
      (if loop_is_running o then mainloop_quit else ret tt) ;;
      emit (g_main_loop_unref (m_mainloop o)) ;;
      modify (set_mainloop None)
  | None => ret tt
  end ;;
  emit (cout ("Cleanup complete" ++ endl)).

(* ===================================================================== *)
(** ** The track inspector *)
(* ===================================================================== *)

(** One pass of the [for] loop in [listTracks] at index [i]. *)
Definition listTracks_body (eng : Engine) (type signalName : string) (i : Z)
  : M unit :=
  o <- this ;;
  emit (g_signal_emit_by_name (m_pipeline o) signalName i) ;;
  match tags_of eng signalName i with
  | Some tags =>
      match GST_TAG_LANGUAGE_CODE tags with
      | Some lang =>
          emit (cout ("  " ++ type ++ "[" ++ show_int i ++ "] " ++ lang ++ endl)) ;;
          emit g_free
      | None => ret tt
      end ;;
      emit gst_tag_list_unref
  | None => ret tt
  end.

(** [for (gint i = 0; i < count; ++i)], from index [i] on.  The result
    tells whether the loop left through its test ([true]) or the fuel ran
    out first ([false]). *)
Fixpoint listTracks_from (eng : Engine) (type signalName : string)
    (count : Z) (fuel : nat) (i : Z) : M bool :=
  if i <? count then
    match fuel with
    | O => ret false
    | S fuel' =>
        listTracks_body eng type signalName i ;;
        listTracks_from eng type signalName count fuel' (i + 1)
    end
  else ret true.

Definition listTracks (eng : Engine) (type : string) (count : Z)
    (signalName : string) : M bool :=
  listTracks_from eng type signalName count (Z.to_nat count) 0.

(** [showStreamDetails] after the sleep. *)
Definition showStreamDetails_awake (eng : Engine) : M unit :=
  o <- this ;;
  match m_pipeline o with
  | None => ret tt
  | Some _ =>
      emit (g_object_get_int (m_pipeline o) "n-audio") ;;
      emit (g_object_get_int (m_pipeline o) "n-text") ;;
      emit (g_object_get_int (m_pipeline o) "n-video") ;;
      let audioTracks := n_audio eng in
      let subtitleTracks := n_text eng in
      let videoTracks := n_video eng in
      emit (cout "Stream Discovery:") ;;
      emit (cout ("Video tracks: " ++ show_int videoTracks ++ endl)) ;;
      emit (cout ("Audio tracks: " ++ show_int audioTracks ++ endl)) ;;
      emit (cout ("Subtitle tracks: " ++ show_int subtitleTracks ++ endl)) ;;
      listTracks eng "Audio" audioTracks "get-audio-tags" ;;
      listTracks eng "Subtitle" subtitleTracks "get-text-tags" ;;
      ret tt
  end.

Definition showStreamDetails (eng : Engine) : M unit :=
  emit (sleep_for_seconds 3) ;;
  showStreamDetails_awake eng.

(* ===================================================================== *)
(** ** The process: [main], [startPlayback] and the three threads *)
(* ===================================================================== *)

(** The threads only meet where one of them blocks: the main thread inside
    [g_main_loop_run] and then in [join], the input thread in
    [std::getline], the info thread in its sleep.  A run is therefore
    given by a schedule, the order in which the outside world unblocks
    them; between two events each thread runs up to its next blocking
    point.  The schedule starts when the main thread has entered
    [g_main_loop_run] and the input thread its first [std::getline], and
    the main thread's write of [m_quit] after the loop has stopped comes
    before the input thread's next test of it.  The source leaves both
    orders to the scheduler: a line or a bus message handled during
    start-up (a "q" before [g_main_loop_run], an error before the input
    thread's first test of [m_quit]) is outside this model, and so is a
    test of [m_quit] that overtakes the write. *)
Module Process.

Inductive event : Type :=
| bus_message (msg : GstMessage)     (* the main loop dispatches the watch *)
| stdin_line (cmd : string)          (* std::getline returns a line *)
| stdin_eof                          (* std::getline fails *)
| info_wakes.                        (* the three seconds are over *)

Inductive main_pc : Type := in_main_loop | in_join | exited (code : Z).
Inductive input_pc : Type := in_getline | input_returned.
Inductive info_pc : Type := in_sleep | info_returned.

Record process : Type := {
  player : MyVideoPlayer;
  output : list effect;
  main_at : main_pc;
  input_at : input_pc;
  info_at : info_pc
}.

(** Run a member function inside the process. *)
Definition exec {A} (m : M A) (p : process) : A * process :=
  let '(a, o, t) := m (player p) in
  (a, {| player := o; output := (output p ++ t)%list; main_at := main_at p;
         input_at := input_at p; info_at := info_at p |}).

Definition at_main (pc : main_pc) (p : process) : process :=
  {| player := player p; output := output p; main_at := pc;
     input_at := input_at p; info_at := info_at p |}.

Definition at_input (pc : input_pc) (p : process) : process :=
  {| player := player p; output := output p; main_at := main_at p;
     input_at := pc; info_at := info_at p |}.

Definition at_info (pc : info_pc) (p : process) : process :=
  {| player := player p; output := output p; main_at := main_at p;
     input_at := input_at p; info_at := pc |}.

(** [startPlayback] up to the point where the main thread blocks in
    [g_main_loop_run]; each thread started on the way runs to its own
    first blocking point.  [false]: the early return on a null pipeline. *)
Definition startPlayback_enter : M bool :=
  o <- this ;;
  match m_pipeline o with
  | None =>
      emit (cerr ("Pipeline not initialized!" ++ endl)) ;;
      ret false
  | Some _ =>
      emit (cout (" Starting playback..." ++ endl)) ;;
      emit (gst_element_set_state (m_pipeline o) GST_STATE_PLAYING) ;;
      emit (thread_start infoThread) ;;
      emit (sleep_for_seconds 3) ;;
      emit (thread_detach infoThread) ;;
      emit (thread_start inputThread) ;;
      handleUserInput_banner ;;
      emit (g_main_loop_run (m_mainloop o)) ;;
      modify (set_running true) ;;
      ret true
  end.

(** The end of [main] once [startPlayback] has returned: [return 0], and
    the destructor of [player] runs [cleanup]. *)
Definition leave_main (p : process) : process :=
  let '(_, p1) := exec (emit (thread_join inputThread) ;; cleanup) p in
  at_main (exited 0) p1.

(** The same when [startPlayback] returned early: no thread to join. *)
Definition leave_main_early (p : process) : process :=
  at_main (exited 0) (snd (exec cleanup p)).

(** Let the main thread go as far as it can. *)
Definition settle (p : process) : process :=
  let p1 :=
    match main_at p with
    | in_main_loop =>
        if loop_is_running (player p) then p
        else (* g_main_loop_run returned; joinable() holds *)
          at_main in_join (snd (exec (modify (set_quit true)) p))
    | _ => p
    end in
  match main_at p1, input_at p1 with
  | in_join, input_returned => leave_main p1
  | _, _ => p1
  end.

(** The input thread, woken by a line: the body of the loop, then the
    test [!m_quit] at its head. *)
Definition input_thread_line (cmd : string) (p : process) : process :=
  let '(c, p1) := exec (handle_line cmd) p in
  match c with
  | loop_break => at_input input_returned p1
  | loop_continue =>
      if m_quit (player p1) then at_input input_returned p1 else p1
  end.

Definition step (eng : Engine) (p : process) (ev : event) : process :=
  match main_at p with
  | exited _ => p                      (* the process is gone *)
  | _ =>
      match ev with
      | bus_message msg =>
          match main_at p with
          | in_main_loop => settle (snd (exec (handleBusMessage msg) p))
          | _ => p                     (* nobody runs the loop *)
          end
      | stdin_line cmd =>
          match input_at p with
          | in_getline => settle (input_thread_line cmd p)
          | input_returned => p
          end
      | stdin_eof =>
          match input_at p with
          | in_getline => settle (at_input input_returned p)
          | input_returned => p
          end
      | info_wakes =>
          match info_at p with
          | in_sleep =>
              at_info info_returned (snd (exec (showStreamDetails_awake eng) p))
          | info_returned => p
          end
      end
  end.

Definition run (eng : Engine) (p : process) (schedule : list event) : process :=
  fold_left (step eng) schedule p.

(** What is seen of a run from outside: the exit code, if the process has
    ended by the end of the schedule, and everything it did. *)
Record outcome : Type := {
  exit_code : option Z;
  effects : list effect
}.

Definition outcome_of (p : process) : outcome :=
  {| exit_code := match main_at p with exited c => Some c | _ => None end;
     effects := output p |}.

(** [main].  [argv] is the whole vector, [argc] its length ([argv[0]] is
    shown as the empty text should the vector be empty). *)
Definition main (argv : list string) (eng : Engine) (schedule : list event)
  : outcome :=
  let argc := Z.of_nat (List.length argv) in
  if argc <? 2 then
    {| exit_code := Some 1;
       effects :=
         [cerr ("Usage: " ++ nth 0 argv "" ++ " <stream_url>");
          cerr ("Example: " ++ nth 0 argv ""
                ++ " https://test-streams.mux.dev/x36xhzz/x36xhzz.m3u8")] |}
  else
    let '(o0, t0) := constructor (nth 1 argv "") in
    let '(ok, o1, t1) := setupPlayer eng o0 in
    if negb ok then
      let '(_, _, t2) := cleanup o1 in      (* ~MyVideoPlayer *)
      {| exit_code := Some 2; effects := (t0 ++ t1 ++ t2)%list |}
    else
      let '(entered, o2, t2) := startPlayback_enter o1 in
      let p :=
        {| player := o2; output := (t0 ++ t1 ++ t2)%list;
           main_at := in_main_loop; input_at := in_getline;
           info_at := in_sleep |} in
      if entered then outcome_of (run eng p schedule)
      else outcome_of (leave_main_early p).

End Process.

(* ===================================================================== *)
(** ** Vocabulary of the specification *)
(* ===================================================================== *)

(** A run of decimal digits and the number it writes, by the weight of
    each position. *)
Fixpoint all_digits (s : string) : bool :=
  match s with
  | String c rest => isdigit c && all_digits rest
  | EmptyString => true
  end.

Fixpoint decimal_value (s : string) : Z :=
  match s with
  | String c rest =>
      match digit_of c with
      | Some d => d * 10 ^ Z.of_nat (String.length rest) + decimal_value rest
      | None => 0
      end
  | EmptyString => 0
  end.

(** The documented shape of a track command: ['a'] or ['s'], then one
    digit or more and nothing else. *)
Definition matches_track_pattern (cmd : string) : bool :=
  match cmd with
  | String c ds => is_a_or_s c && negb (String.eqb ds "") && all_digits ds
  | EmptyString => false
  end.

(** The track switches found in a trace: property and index of every
    write to [current-audio] or [current-text], in order. *)
Definition switch_of (e : effect) : list (string * Z) :=
  match e with
  | g_object_set_int _ prop v =>
      if String.eqb prop "current-audio" || String.eqb prop "current-text"
      then [(prop, v)] else []
  | _ => []
  end.

Definition switch_calls (t : list effect) : list (string * Z) :=
  flat_map switch_of t.

Definition is_log (e : effect) : bool :=
  match e with
  | cout _ | cerr _ => true
  | _ => false
  end.

Definition is_loop_quit (e : effect) : bool :=
  match e with
  | g_main_loop_quit _ => true
  | _ => false
  end.

(** The effects [t] first, then the computation [r]. *)
Definition after {A} (t : list effect) (r : A * MyVideoPlayer * list effect)
  : A * MyVideoPlayer * list effect :=
  (value_of r, object_of r, (t ++ effects_of r)%list).

(** An optional sign in front of a number. *)
Inductive sign : Type := no_sign | plus_sign | minus_sign.

Definition sign_text (sg : sign) : string :=
  match sg with
  | no_sign => ""
  | plus_sign => "+"
  | minus_sign => "-"
  end.

Definition signed (sg : sign) (v : Z) : Z :=
  match sg with
  | minus_sign => - v
  | _ => v
  end.

(** A player in the middle of playback, for the concrete cases. *)
Definition playing_player : MyVideoPlayer :=
  {| m_streamUrl := "https://test-streams.mux.dev/x36xhzz/x36xhzz.m3u8";
     m_pipeline := Some 1%nat; m_mainloop := Some 2%nat;
     m_quit := false; loop_is_running := true |}.

Import Process.

Definition invalid_track_number : list effect :=
  [cout ("Invalid track number" ++ endl)].

Definition audio_switched (o : MyVideoPlayer) (n : Z) : list effect :=
  [g_object_set_int (m_pipeline o) "current-audio" n;
   cout ("Switched to audio track #" ++ show_int n ++ endl)].

Definition subtitle_switched (o : MyVideoPlayer) (n : Z) : list effect :=
  [g_object_set_int (m_pipeline o) "current-text" n;
   cout ("Switched to subtitle track #" ++ show_int n ++ endl)].

(** The object once [g_main_loop_quit(m_mainloop)] has been called. *)
Definition quit_requested (o : MyVideoPlayer) : MyVideoPlayer :=
  match m_mainloop o with
  | Some _ => set_running false o
  | None => o
  end.

(** The calls that give a reference back. *)
Definition is_release (e : effect) : bool :=
  match e with
  | gst_object_unref (ref_element _) => true
  | g_main_loop_unref _ => true
  | _ => false
  end.

Definition releases (t : list effect) : list effect := filter is_release t.

Definition cleanup_complete : list effect := [cout ("Cleanup complete" ++ endl)].

(** The indices [0, count), in order; empty when [count <= 0]. *)
Definition indices (count : Z) : list Z :=
  map Z.of_nat (seq 0 (Z.to_nat count)).

(** What is done for the track at index [i]: the tags are asked for; the
    language is printed if there is a tag list and it holds one. *)
Definition track_report (eng : Engine) (type signalName : string)
    (p : option GstElement) (i : Z) : list effect :=
  g_signal_emit_by_name p signalName i ::
  match tags_of eng signalName i with
  | Some tags =>
      match GST_TAG_LANGUAGE_CODE tags with
      | Some lang =>
          [cout ("  " ++ type ++ "[" ++ show_int i ++ "] " ++ lang ++ endl);
           g_free; gst_tag_list_unref]
      | None => [gst_tag_list_unref]
      end
  | None => []
  end.

(** The end of a run that went through [startPlayback]: the join, then
    the destructor's [cleanup] on a pipeline and a stopped loop. *)
Definition teardown (e : GstElement) (l : GMainLoop) : list effect :=
  [thread_join inputThread;
   gst_element_set_state (Some e) GST_STATE_NULL;
   gst_object_unref (ref_element (Some e));
   g_main_loop_unref (Some l);
   cout ("Cleanup complete" ++ endl)].

(** What holds of the process between two events. *)
Definition consistent (e : GstElement) (l : GMainLoop) (p : process) : Prop :=
  match main_at p with
  | in_main_loop =>
      m_pipeline (player p) = Some e /\ m_mainloop (player p) = Some l
      /\ loop_is_running (player p) = true
  | in_join =>
      m_pipeline (player p) = Some e /\ m_mainloop (player p) = Some l
      /\ loop_is_running (player p) = false
      /\ m_quit (player p) = true
      /\ input_at p = in_getline
      /\ In (g_main_loop_quit (Some l)) (output p)
  | exited c =>
      c = 0
      /\ exists pre, output p = (pre ++ teardown e l)%list
                     /\ In (g_main_loop_quit (Some l)) pre
  end.

(** What holds after a thread has moved and before the main thread is
    given its turn. *)
Definition unsettled (e : GstElement) (l : GMainLoop) (p : process) : Prop :=
  m_pipeline (player p) = Some e /\ m_mainloop (player p) = Some l
  /\ (loop_is_running (player p) = false ->
      In (g_main_loop_quit (Some l)) (output p))
  /\ match main_at p with
     | in_main_loop => True
     | in_join => loop_is_running (player p) = false /\ m_quit (player p) = true
     | exited _ => False
     end.

(** The process as [main] leaves it to the schedule. *)
Definition started (argv : list string) (eng : Engine) : process :=
  let '(o0, t0) := constructor (nth 1 argv "") in
  let '(_, o1, t1) := setupPlayer eng o0 in
  let '(_, o2, t2) := startPlayback_enter o1 in
  {| player := o2; output := (t0 ++ t1 ++ t2)%list;
     main_at := in_main_loop; input_at := in_getline; info_at := in_sleep |}.

Definition starts_threads_or_playback (e : effect) : bool :=
  match e with
  | thread_start _ => true
  | g_main_loop_run _ => true
  | gst_element_set_state _ GST_STATE_PLAYING => true
  | _ => false
  end.

(** A member function that leaves the object alone or asks the loop to
    quit keeps the process in order. *)
Definition quits_or_keeps {A} (m : M A) : Prop :=
  forall o, let r := m o in
    (object_of r = o)
    \/ (object_of r = quit_requested o
        /\ In (g_main_loop_quit (m_mainloop o)) (effects_of r)).

Definition stops_loop (msg : GstMessage) : bool :=
  match msg with
  | GST_MESSAGE_ERROR _ _ | GST_MESSAGE_EOS => true
  | _ => false
  end.

(** An engine on which the playbin is made, and one on which it is not. *)
Definition engine_with (pb : option GstElement) : Engine :=
  {| playbin := pb; new_loop := 2%nat;
     n_video := 1; n_audio := 2; n_text := 1;
     tags_of := fun signal i =>
       if String.eqb signal "get-audio-tags"
       then Some {| GST_TAG_LANGUAGE_CODE :=
                      if i =? 0 then Some "en" else None |}
       else None |}.

(** What the lines [lines] make the loop body do, one after the other,
    on an object the body leaves as it is. *)
Definition per_line (o : MyVideoPlayer) (lines : list string) : list effect :=
  flat_map (fun cmd => effects_of (handle_line cmd o)) lines.

Definition shutting_down (o : MyVideoPlayer) : list effect :=
  [cout ("Shutting down..." ++ endl); g_main_loop_quit (m_mainloop o)].

Fixpoint all_space (s : string) : bool :=
  match s with
  | String c rest => isspace c && all_space rest
  | EmptyString => true
  end.

(** A write to the engine that the interpreter may make on the pipeline
    [p]: one of the two track properties, with a value in [int]. *)
Definition track_write_ok (p : option GstElement) (e : effect) : bool :=
  match e with
  | g_object_set_int q prop v =>
      same_object q p
      && (String.eqb prop "current-audio" || String.eqb prop "current-text")
      && in_int_range v
  | g_object_set_string _ _ _ => false
  | gst_element_set_state _ _ => false
  | gst_object_unref _ => false
  | g_main_loop_unref _ => false
  | _ => true
  end.

(** Effects by the thread that can make them after start-up. *)
Definition inspector_effect (e : effect) : bool :=
  match e with
  | cout _ | g_object_get_int _ _ | g_signal_emit_by_name _ _ _
  | g_free | gst_tag_list_unref => true
  | _ => false
  end.

Definition body_effect (e : effect) : bool :=
  match e with
  | cout _ | cerr _ | g_object_get_int _ _ | g_signal_emit_by_name _ _ _
  | g_free | gst_tag_list_unref | g_object_set_int _ _ _
  | g_main_loop_quit _ | g_clear_error => true
  | _ => false
  end.

Definition emitted_index (e : effect) : list Z :=
  match e with
  | g_signal_emit_by_name _ _ i => [i]
  | _ => []
  end.

Definition is_tag_unref (e : effect) : bool :=
  match e with gst_tag_list_unref => true | _ => false end.

Definition is_g_free (e : effect) : bool :=
  match e with g_free => true | _ => false end.

Definition has_tags (eng : Engine) (signalName : string) (i : Z) : bool :=
  match tags_of eng signalName i with Some _ => true | None => false end.

Definition has_language (eng : Engine) (signalName : string) (i : Z) : bool :=
  match tags_of eng signalName i with
  | Some tags =>
      match GST_TAG_LANGUAGE_CODE tags with Some _ => true | None => false end
  | None => false
  end.

(** Events by what they can bring about. *)
Definition is_stdin (ev : event) : bool :=
  match ev with
  | stdin_line _ | stdin_eof => true
  | _ => false
  end.

Definition stops (ev : event) : bool :=
  match ev with
  | bus_message msg => stops_loop msg
  | stdin_line cmd => String.eqb cmd "q"
  | _ => false
  end.

Definition closes_stdin (ev : event) : bool :=
  match ev with
  | stdin_eof => true
  | _ => false
  end.

Definition line_of (ev : event) : list string :=
  match ev with
  | stdin_line cmd => [cmd]
  | _ => []
  end.

(** What ends the trace of a process: the teardown once it has exited. *)
Definition closing (e : GstElement) (l : GMainLoop) (p : process) : list effect :=
  match main_at p with
  | exited _ => teardown e l
  | _ => []
  end.

(** The process while the stream plays and the interpreter waits for a
    line: nothing has asked the main loop to quit yet. *)
Definition playing (e : GstElement) (l : GMainLoop) (p : process) : Prop :=
  main_at p = in_main_loop
  /\ input_at p = in_getline
  /\ m_pipeline (player p) = Some e
  /\ m_mainloop (player p) = Some l
  /\ loop_is_running (player p) = true
  /\ m_quit (player p) = false.

(** An event that neither stops the main loop nor closes standard input. *)
Definition calm (ev : event) : bool := negb (stops ev) && negb (closes_stdin ev).

(** What [startPlayback] has done by the time the main loop runs. *)
Definition startup (url : string) (e : GstElement) (l : GMainLoop) : list effect :=
  [cout ("MyVideoPlayer initializing for: " ++ url ++ endl);
   gst_init;
   gst_element_factory_make "playbin" "my-player";
   g_object_set_string (Some e) "uri" url;
   g_object_set_int (Some e) "latency" 500;
   g_object_set_int (Some e) "buffer-size" 4194304;
   g_object_set_int (Some e) "ring-buffer-max-size" 0;
   gst_element_get_bus (Some e);
   gst_bus_add_watch (Some e);
   gst_object_unref (ref_bus (Some e));
   g_main_loop_new;
   cout ("Player setup complete. Ready to play!" ++ endl);
   cout (" Starting playback..." ++ endl);
   gst_element_set_state (Some e) GST_STATE_PLAYING;
   thread_start infoThread;
   sleep_for_seconds 3;
   thread_detach infoThread;
   thread_start inputThread;
   cout "Controls:";
   cout "  'a0', 'a1'... = Audio track";
   cout "  's0', 's1'... = Subtitle track";
   cout "  'q'           = Quit";
   g_main_loop_run (Some l)].

(** The object while the stream plays. *)
Definition player_of (url : string) (e : GstElement) (l : GMainLoop)
  : MyVideoPlayer :=
  {| m_streamUrl := url; m_pipeline := Some e; m_mainloop := Some l;
     m_quit := false; loop_is_running := true |}.

Definition has_q (lines : list string) : bool := existsb (String.eqb "q") lines.

(** A process in the middle of playback: the main thread inside the main
    loop, the input thread inside [std::getline], the inspector asleep. *)
Definition waiting_process : process :=
  {| player := playing_player; output := [];
     main_at := in_main_loop; input_at := in_getline; info_at := in_sleep |}.

(* ===================================================================== *)
(** ** [std::stoi] on digit strings *)
(* ===================================================================== *)

Lemma digit_of_range c d : digit_of c = Some d -> 0 <= d <= 9.
Proof.
  unfold digit_of.
  destruct (_ && _)%bool eqn:E; [|discriminate].
  intros [= <-].
  apply andb_prop in E as [E1 E2].
  apply Nat.leb_le in E1, E2. lia.
Qed.

Lemma isdigit_digit_of c : isdigit c = true -> exists d, digit_of c = Some d.
Proof.
  unfold isdigit. destruct (digit_of c) as [d|]; [eauto | discriminate].
Qed.

Lemma digit_not_space c : isdigit c = true -> isspace c = false.
Proof.
  unfold isdigit, digit_of, isspace.
  destruct ((48 <=? _)%nat && _)%bool eqn:E; [|discriminate].
  intros _. apply andb_prop in E as [E1 E2].
  apply Nat.leb_le in E1, E2.
  apply orb_false_intro.
  - apply Nat.eqb_neq. lia.
  - apply andb_false_intro2. apply Nat.leb_gt. lia.
Qed.

Lemma digit_not_char c (x : ascii) :
  isdigit x = false -> isdigit c = true -> Ascii.eqb c x = false.
Proof.
  intros Hx Hc. destruct (Ascii.eqb_spec c x) as [->|]; congruence.
Qed.

Lemma decimal_value_nonneg s : 0 <= decimal_value s.
Proof.
  induction s as [|c rest IH]; simpl; [lia|].
  destruct (digit_of c) as [d|] eqn:E; [|lia].
  apply digit_of_range in E.
  assert (0 <= 10 ^ Z.of_nat (String.length rest)) by (apply Z.pow_nonneg; lia).
  nia.
Qed.

(** The left-to-right accumulation of [strtol] computes the positional
    value. *)
Lemma strtol_digits_all s : forall acc,
  all_digits s = true ->
  strtol_digits s acc = acc * 10 ^ Z.of_nat (String.length s) + decimal_value s.
Proof.
  induction s as [|c rest IH]; intros acc H.
  - simpl. lia.
  - simpl in H. apply andb_prop in H as [Hc Hr].
    destruct (isdigit_digit_of _ Hc) as [d Hd].
    cbn [strtol_digits decimal_value String.length]. rewrite Hd.
    rewrite IH by assumption.
    rewrite Nat2Z.inj_succ, Z.pow_succ_r by lia. ring.
Qed.

(** A character that is no digit ends the run: what follows it does not
    matter. *)
Lemma strtol_digits_stop ds : forall tail acc,
  all_digits ds = true -> starts_with_digit tail = false ->
  strtol_digits (ds ++ tail) acc = strtol_digits ds acc.
Proof.
  induction ds as [|c rest IH]; intros tail acc H Ht; simpl.
  - destruct tail as [|x tail']; [reflexivity|].
    simpl in *. unfold isdigit in Ht.
    destruct (digit_of x); [discriminate | reflexivity].
  - simpl in H. apply andb_prop in H as [Hc Hr].
    destruct (isdigit_digit_of _ Hc) as [d Hd]. rewrite Hd.
    now apply IH.
Qed.

Lemma all_digits_starts ds :
  ds <> "" -> all_digits ds = true -> starts_with_digit ds = true.
Proof.
  destruct ds as [|c rest]; [congruence|].
  simpl. intros _ H. now apply andb_prop in H as [Hc _].
Qed.

Lemma starts_with_digit_app ds tail :
  ds <> "" -> starts_with_digit (ds ++ tail) = starts_with_digit ds.
Proof. destruct ds; [congruence | reflexivity]. Qed.

Lemma skip_space_digit s : starts_with_digit s = true -> skip_space s = s.
Proof.
  destruct s as [|c rest]; [reflexivity|].
  simpl. intros H. now rewrite (digit_not_space _ H).
Qed.

Lemma strtol10_minus r :
  strtol10 (String "-" r) =
    if starts_with_digit r then Some (- strtol_digits r 0) else None.
Proof. reflexivity. Qed.

Lemma strtol10_plus r :
  strtol10 (String "+" r) =
    if starts_with_digit r then Some (strtol_digits r 0) else None.
Proof. reflexivity. Qed.

(** [strtol] on an optional sign, digits, and a tail that does not go on
    with a digit. *)
Lemma strtol10_signed sg ds tail :
  ds <> "" -> all_digits ds = true -> starts_with_digit tail = false ->
  strtol10 (sign_text sg ++ ds ++ tail) = Some (signed sg (decimal_value ds)).
Proof.
  intros Hne Hd Ht.
  pose proof (all_digits_starts _ Hne Hd) as Hs.
  assert (Hs' : starts_with_digit (ds ++ tail) = true)
    by now rewrite starts_with_digit_app.
  assert (Hv : strtol_digits (ds ++ tail) 0 = decimal_value ds).
  { rewrite strtol_digits_stop, strtol_digits_all by assumption. lia. }
  destruct sg; cbn [sign_text append signed].
  - unfold strtol10.
    rewrite skip_space_digit by assumption.
    destruct (ds ++ tail) as [|c r] eqn:E; [discriminate|].
    assert (Hc : isdigit c = true) by exact Hs'.
    rewrite (digit_not_char c "-"), (digit_not_char c "+")
      by (assumption || reflexivity).
    now rewrite Hs', Hv.
  - now rewrite strtol10_plus, Hs', Hv.
  - now rewrite strtol10_minus, Hs', Hv.
Qed.

Lemma stoi_signed sg ds tail :
  ds <> "" -> all_digits ds = true -> starts_with_digit tail = false ->
  stoi (sign_text sg ++ ds ++ tail) =
    if in_int_range (signed sg (decimal_value ds))
    then stoi_value (signed sg (decimal_value ds))
    else out_of_range.
Proof.
  intros. unfold stoi. now rewrite strtol10_signed.
Qed.

Lemma append_empty_r s : s ++ "" = s.
Proof. induction s; simpl; congruence. Qed.

Lemma stoi_digits ds :
  ds <> "" -> all_digits ds = true ->
  stoi ds = if decimal_value ds <=? INT_MAX
            then stoi_value (decimal_value ds) else out_of_range.
Proof.
  intros Hne Hd.
  pose proof (stoi_signed no_sign ds "" Hne Hd eq_refl) as H.
  simpl in H. rewrite append_empty_r in H. rewrite H.
  unfold in_int_range.
  pose proof (decimal_value_nonneg ds).
  replace (INT_MIN <=? decimal_value ds) with true; [reflexivity|].
  symmetry. apply Z.leb_le. unfold INT_MIN. lia.
Qed.

(** [std::stoi] on a few texts: white space and a sign are taken, a tail
    is dropped, nothing to convert or a value outside [int] throws. *)
Example stoi_samples :
  stoi "2" = stoi_value 2
  /\ stoi "007" = stoi_value 7
  /\ stoi " +5" = stoi_value 5
  /\ stoi "-3" = stoi_value (-3)
  /\ stoi "2xyz" = stoi_value 2
  /\ stoi "abc" = invalid_argument
  /\ stoi "-" = invalid_argument
  /\ stoi "2147483647" = stoi_value INT_MAX
  /\ stoi "2147483648" = out_of_range
  /\ stoi "-2147483648" = stoi_value INT_MIN
  /\ stoi "-2147483649" = out_of_range.
Proof. repeat split; reflexivity. Qed.

(* ===================================================================== *)
(** ** The command interpreter *)
(* ===================================================================== *)

Lemma switchAudio_run n o : switchAudio n o = (tt, o, audio_switched o n).
Proof. reflexivity. Qed.

Lemma switchSubtitle_run n o : switchSubtitle n o = (tt, o, subtitle_switched o n).
Proof. reflexivity. Qed.

Lemma mainloop_quit_run o :
  mainloop_quit o = (tt, quit_requested o, [g_main_loop_quit (m_mainloop o)]).
Proof.
  unfold mainloop_quit, quit_requested, bind, this, emit, modify, ret.
  now destruct (m_mainloop o).
Qed.

Lemma handle_line_q o :
  handle_line "q" o =
    (loop_break, quit_requested o,
     [cout ("Shutting down..." ++ endl); g_main_loop_quit (m_mainloop o)]).
Proof.
  unfold handle_line. cbn [String.eqb Ascii.eqb Bool.eqb].
  unfold bind at 1. cbn [emit].
  unfold bind. rewrite mainloop_quit_run. reflexivity.
Qed.

(** Every line but ["q"]: the three ways through the rest of the body. *)
Lemma handle_line_other cmd o :
  cmd <> "q" ->
  handle_line cmd o =
    (loop_continue, o,
     if (1 <? size cmd) && is_a_or_s (at0 cmd) then
       match stoi (substr1 cmd) with
       | stoi_value v =>
           if Ascii.eqb (at0 cmd) "a"
           then audio_switched o v else subtitle_switched o v
       | _ => invalid_track_number
       end
     else []).
Proof.
  intros Hq. unfold handle_line.
  destruct (String.eqb_spec cmd "q") as [|_]; [contradiction|].
  destruct (_ && _)%bool; [|reflexivity].
  destruct (stoi (substr1 cmd)); try reflexivity.
  now destruct (Ascii.eqb (at0 cmd) "a").
Qed.

Lemma loop_continue_step cmd rest o o' t :
  m_quit o = false ->
  handle_line cmd o = (loop_continue, o', t) ->
  handleUserInput_loop (cmd :: rest) o = after t (handleUserInput_loop rest o').
Proof.
  intros Hq H. cbn [handleUserInput_loop].
  unfold bind at 1. cbn [this]. rewrite Hq.
  unfold bind. rewrite H.
  now destruct (handleUserInput_loop rest o') as [[r o2] t2].
Qed.

Lemma loop_break_step cmd rest o o' t :
  m_quit o = false ->
  handle_line cmd o = (loop_break, o', t) ->
  handleUserInput_loop (cmd :: rest) o = (rest, o', t).
Proof.
  intros Hq H. cbn [handleUserInput_loop].
  unfold bind at 1. cbn [this]. rewrite Hq.
  unfold bind. rewrite H. cbn [ret app].
  now rewrite app_nil_r.
Qed.

Lemma a_or_s_not_q c rest : is_a_or_s c = true -> String c rest <> "q".
Proof.
  intros H [= -> _]. discriminate H.
Qed.

Lemma size_track_command c rest :
  rest <> "" -> (1 <? size (String c rest)) = true.
Proof.
  intros H. apply Z.ltb_lt. unfold size.
  destruct rest; [congruence|]. cbn [String.length]. lia.
Qed.

(** A line made of ['a'] or ['s'] and a text on which [std::stoi]
    succeeds is a track switch. *)
Lemma handle_line_switch c rest v o :
  is_a_or_s c = true -> rest <> "" -> stoi rest = stoi_value v ->
  handle_line (String c rest) o =
    (loop_continue, o,
     if Ascii.eqb c "a" then audio_switched o v else subtitle_switched o v).
Proof.
  intros Hc Hne Hs.
  rewrite handle_line_other by now apply a_or_s_not_q.
  rewrite size_track_command by assumption.
  cbn [at0 substr1 andb]. now rewrite Hc, Hs.
Qed.

(** C1 (corrected): for every line [a<N>] or [s<N>] where <N> is one or
    more decimal digits writing a number N that fits a C++ [int]
    (N <= 2147483647), the body of the loop calls the matching switch
    ([switchAudio] for 'a', [switchSubtitle] for 's') exactly once, with
    value N, and goes on to the next line. *)
Theorem C1_track_command_switches_once
    (ds : string) (o : MyVideoPlayer) (rest : list string) :
  ds <> "" -> all_digits ds = true -> decimal_value ds <= INT_MAX ->
  let N := decimal_value ds in
  handle_line (String "a" ds) o = (loop_continue, o, effects_of (switchAudio N o))
  /\ handle_line (String "s" ds) o
       = (loop_continue, o, effects_of (switchSubtitle N o))
  /\ switch_calls (effects_of (switchAudio N o)) = [("current-audio", N)]
  /\ switch_calls (effects_of (switchSubtitle N o)) = [("current-text", N)]
  /\ (m_quit o = false ->
      handleUserInput_loop (String "a" ds :: rest) o
        = after (audio_switched o N) (handleUserInput_loop rest o)
      /\ handleUserInput_loop (String "s" ds :: rest) o
        = after (subtitle_switched o N) (handleUserInput_loop rest o)).
Proof.
  intros Hne Hd Hmax N.
  assert (Hs : stoi ds = stoi_value N).
  { rewrite stoi_digits by assumption.
    now apply Z.leb_le in Hmax as ->. }
  assert (Ha : handle_line (String "a" ds) o = (loop_continue, o, audio_switched o N))
    by now rewrite (handle_line_switch "a" ds N).
  assert (Hb : handle_line (String "s" ds) o
               = (loop_continue, o, subtitle_switched o N))
    by now rewrite (handle_line_switch "s" ds N).
  repeat split; try assumption; try reflexivity.
  - now apply loop_continue_step.
  - now apply loop_continue_step.
Qed.

Lemma C1_track_command_switches_once_witness :
  handle_line "a2" playing_player
    = (loop_continue, playing_player, audio_switched playing_player 2)
  /\ switch_calls (audio_switched playing_player 2) = [("current-audio", 2)].
Proof.
  assert (H1 : "2" <> "") by discriminate.
  assert (H2 : all_digits "2" = true) by reflexivity.
  assert (H3 : decimal_value "2" <= INT_MAX) by (vm_compute; discriminate).
  destruct (C1_track_command_switches_once "2" playing_player [] H1 H2 H3)
    as (Ha & _ & Hc & _).
  split; [exact Ha | exact Hc].
Defined.

(** The claim as written fails on a number beyond [INT_MAX]: [std::stoi]
    throws and no switch is made. *)
Lemma C1_counterexample :
  all_digits "2147483648" = true
  /\ decimal_value "2147483648" = 2147483648
  /\ handle_line "a2147483648" playing_player
       = (loop_continue, playing_player, invalid_track_number)
  /\ switch_calls (effects_of (handle_line "a2147483648" playing_player))
       <> [("current-audio", 2147483648)].
Proof.
  repeat split; try reflexivity.
  vm_compute. discriminate.
Qed.

(** C2 (corrected): a line that is neither ["q"] nor of the documented
    shape never ends the loop and never asks the event loop to stop, so
    the next line is still read.  It logs "Invalid track number" exactly
    when it is longer than one character, starts with 'a' or 's' and
    [std::stoi] throws on the rest; a line that is too short or starts
    with another character is passed over without any output; and where
    [std::stoi] succeeds on the rest the line is a track switch. *)
Theorem C2_unrecognised_line_continues
    (cmd : string) (o : MyVideoPlayer) (rest : list string) :
  cmd <> "q" -> matches_track_pattern cmd = false ->
  let r := handle_line cmd o in
  value_of r = loop_continue
  /\ object_of r = o
  /\ existsb is_loop_quit (effects_of r) = false
  /\ (size cmd <= 1 \/ is_a_or_s (at0 cmd) = false -> effects_of r = [])
  /\ (1 < size cmd -> is_a_or_s (at0 cmd) = true ->
      (forall v, stoi (substr1 cmd) <> stoi_value v) ->
      effects_of r = invalid_track_number)
  /\ (forall v, 1 < size cmd -> is_a_or_s (at0 cmd) = true ->
      stoi (substr1 cmd) = stoi_value v ->
      effects_of r = if Ascii.eqb (at0 cmd) "a"
                     then audio_switched o v else subtitle_switched o v)
  /\ (m_quit o = false ->
      handleUserInput_loop (cmd :: rest) o
        = after (effects_of r) (handleUserInput_loop rest o)).
Proof.
  intros Hq _ r.
  pose proof (handle_line_other cmd o Hq) as H. fold r in H.
  split; [now rewrite H|].
  split; [now rewrite H|].
  split.
  { rewrite H. cbn [effects_of snd].
    destruct (_ && _)%bool; [|reflexivity].
    destruct (stoi (substr1 cmd)); try reflexivity.
    now destruct (Ascii.eqb (at0 cmd) "a"). }
  split.
  { intros Hs. rewrite H. cbn [effects_of snd].
    destruct Hs as [Hs|Hs].
    - apply Z.ltb_ge in Hs. now rewrite Hs.
    - rewrite Hs. now rewrite andb_false_r. }
  split.
  { intros Hs Hc Hv. rewrite H. cbn [effects_of snd].
    apply Z.ltb_lt in Hs. rewrite Hs, Hc. cbn [andb].
    destruct (stoi (substr1 cmd)) as [v| |]; try reflexivity.
    now elim (Hv v). }
  split.
  { intros v Hs Hc Hv. rewrite H. cbn [effects_of snd].
    apply Z.ltb_lt in Hs. now rewrite Hs, Hc, Hv. }
  intros Hm. apply loop_continue_step; [assumption|].
  subst r. rewrite (handle_line_other cmd o Hq). reflexivity.
Qed.

Lemma C2_unrecognised_line_continues_witness :
  handleUserInput_loop ["aabc"; "a1"] playing_player
    = after (effects_of (handle_line "aabc" playing_player))
        (handleUserInput_loop ["a1"] playing_player).
Proof.
  assert (H1 : "aabc" <> "q") by discriminate.
  assert (H2 : matches_track_pattern "aabc" = false) by reflexivity.
  apply (C2_unrecognised_line_continues "aabc" playing_player ["a1"] H1 H2).
  reflexivity.
Defined.

(** The claim as written fails on ["xyz"] (and on ["a"]): the body prints
    nothing at all for it. *)
Lemma C2_counterexample :
  "xyz" <> "q"
  /\ matches_track_pattern "xyz" = false
  /\ handle_line "xyz" playing_player = (loop_continue, playing_player, [])
  /\ ~ (exists e, In e (effects_of (handle_line "xyz" playing_player))
                  /\ is_log e = true).
Proof.
  repeat split; try reflexivity; try discriminate.
  intros (e & Hin & _). exact Hin.
Qed.

(** C3 (confirmed): on the line ["q"] the body logs "Shutting down...",
    calls [g_main_loop_quit] on the main loop and breaks: the loop returns
    with every later line unread, and nothing else has been done. *)
Theorem C3_q_quits_and_leaves_loop (o : MyVideoPlayer) (rest : list string) :
  handle_line "q" o
    = (loop_break, quit_requested o,
       [cout ("Shutting down..." ++ endl); g_main_loop_quit (m_mainloop o)])
  /\ (forall l, m_mainloop o = Some l ->
      loop_is_running (quit_requested o) = false)
  /\ (m_quit o = false ->
      handleUserInput_loop ("q" :: rest) o
        = (rest, quit_requested o,
           [cout ("Shutting down..." ++ endl);
            g_main_loop_quit (m_mainloop o)])).
Proof.
  split; [apply handle_line_q|].
  split.
  - intros l Hl. unfold quit_requested. now rewrite Hl.
  - intros Hm. apply loop_break_step; [assumption | apply handle_line_q].
Qed.

Lemma C3_q_quits_and_leaves_loop_witness :
  handleUserInput_loop ["q"; "a1"; "s0"] playing_player
    = (["a1"; "s0"], set_running false playing_player,
       [cout ("Shutting down..." ++ endl); g_main_loop_quit (Some 2%nat)]).
Proof.
  apply (C3_q_quits_and_leaves_loop playing_player ["a1"; "s0"]).
  reflexivity.
Defined.

(** C10 (corrected): the interpreter takes more than the documented
    shape.  A line of 'a' or 's', an optional sign, one or more digits and
    any tail that does not go on with a digit is a track switch with the
    signed number the digits write, negative ones included, whenever that
    number fits a C++ [int]; "a2xyz" and "a-3" are such lines and do not
    match the documented shape. *)
Theorem C10_lenient_track_command
    (c : ascii) (sg : sign) (ds tail : string) (o : MyVideoPlayer) :
  is_a_or_s c = true ->
  ds <> "" -> all_digits ds = true -> starts_with_digit tail = false ->
  in_int_range (signed sg (decimal_value ds)) = true ->
  let v := signed sg (decimal_value ds) in
  let m := if Ascii.eqb c "a" then switchAudio v else switchSubtitle v in
  handle_line (String c (sign_text sg ++ ds ++ tail)) o
    = (loop_continue, o, effects_of (m o))
  /\ switch_calls (effects_of (m o))
     = [(if Ascii.eqb c "a" then "current-audio" else "current-text", v)]
  /\ (matches_track_pattern "a2xyz" = false
      /\ handle_line "a2xyz" o = (loop_continue, o, audio_switched o 2))
  /\ (matches_track_pattern "a-3" = false
      /\ handle_line "a-3" o = (loop_continue, o, audio_switched o (-3))).
Proof.
  intros Hc Hne Hd Ht Hr v m.
  assert (Hs : stoi (sign_text sg ++ ds ++ tail) = stoi_value v).
  { rewrite stoi_signed by assumption. fold v. fold v in Hr. now rewrite Hr. }
  assert (Hne' : sign_text sg ++ ds ++ tail <> "").
  { destruct sg; cbn [sign_text append]; try discriminate.
    destruct ds; [congruence | discriminate]. }
  split.
  { rewrite (handle_line_switch c _ v) by assumption.
    subst m. now destruct (Ascii.eqb c "a"). }
  split.
  { subst m. now destruct (Ascii.eqb c "a"). }
  split; (split; [reflexivity|]).
  - now rewrite (handle_line_switch "a" "2xyz" 2).
  - now rewrite (handle_line_switch "a" "-3" (-3)).
Qed.

Lemma C10_lenient_track_command_witness :
  handle_line "s-12 tail" playing_player
    = (loop_continue, playing_player, subtitle_switched playing_player (-12)).
Proof.
  assert (H1 : is_a_or_s "s" = true) by reflexivity.
  assert (H2 : "12" <> "") by discriminate.
  assert (H3 : all_digits "12" = true) by reflexivity.
  assert (H4 : starts_with_digit " tail" = false) by reflexivity.
  assert (H5 : in_int_range (signed minus_sign (decimal_value "12")) = true)
    by reflexivity.
  exact (proj1 (C10_lenient_track_command "s" minus_sign "12" " tail"
                  playing_player H1 H2 H3 H4 H5)).
Defined.

(** Without the bound the claim fails: the rest of "a99999999999" begins
    with a decimal integer, yet [std::stoi] throws and no switch is made. *)
Lemma C10_counterexample :
  (1 <? size "a99999999999") = true
  /\ at0 "a99999999999" = "a"%char
  /\ all_digits (substr1 "a99999999999") = true
  /\ stoi (substr1 "a99999999999") = out_of_range
  /\ handle_line "a99999999999" playing_player
       = (loop_continue, playing_player, invalid_track_number)
  /\ switch_calls (effects_of (handle_line "a99999999999" playing_player)) = [].
Proof.
  repeat split; reflexivity.
Qed.

(* ===================================================================== *)
(** ** The event bridge *)
(* ===================================================================== *)

Lemma same_object_eq a b : same_object a b = true <-> a = b.
Proof.
  destruct a as [x|], b as [y|]; simpl; split; intros H;
    try discriminate; try reflexivity.
  - apply Nat.eqb_eq in H. now subst.
  - injection H as ->. apply Nat.eqb_refl.
Qed.

(** C4 (confirmed): [handleBusMessage] by kind of message.  An error is
    written to [std::cerr]: the error's own message and then its debug
    detail, with "Unknown error" / "No debug info" only where the message
    or the detail is missing; and the main loop is asked to quit; end of stream is logged and the main loop is asked to quit; a
    state change is logged, old state then new, only if it comes from the
    owned pipeline, and never stops the loop; any other message does
    nothing.  The watch stays installed in every case. *)
Theorem C4_bus_message_dispatch (msg : GstMessage) (o : MyVideoPlayer) :
  let r := handleBusMessage msg o in
  value_of r = true
  /\ match msg with
     | GST_MESSAGE_ERROR err debug =>
         object_of r = quit_requested o
         /\ effects_of r =
              [cerr ("PLAYER ERROR: "
                     ++ match err with
                        | Some message => message
                        | None => "Unknown error"
                        end
                     ++ "Debug: "
                     ++ match debug with
                        | Some detail => detail
                        | None => "No debug info"
                        end
                     ++ endl);
               g_clear_error; g_free; g_main_loop_quit (m_mainloop o)]
     | GST_MESSAGE_EOS =>
         object_of r = quit_requested o
         /\ effects_of r =
              [cout ("End of Stream reached" ++ endl);
               g_main_loop_quit (m_mainloop o)]
     | GST_MESSAGE_STATE_CHANGED src old current _ =>
         object_of r = o
         /\ (same_object src (m_pipeline o) = true <-> src = m_pipeline o)
         /\ effects_of r =
              (if same_object src (m_pipeline o)
               then [cout ("State: " ++ gst_element_state_get_name old
                           ++ "State: " ++ gst_element_state_get_name current
                           ++ endl)]
               else [])
         /\ existsb is_loop_quit (effects_of r) = false
     | GST_MESSAGE_OTHER _ _ =>
         object_of r = o /\ effects_of r = []
     end.
Proof.
  destruct msg as [err debug| |src old current pending|kind src]; cbn zeta.
  - destruct o as [u p [l|] q b]; repeat split.
  - destruct o as [u p [l|] q b]; repeat split.
  - pose proof (same_object_eq src (m_pipeline o)) as Hsame.
    unfold handleBusMessage, bind, this.
    destruct (same_object src (m_pipeline o)); repeat split; apply Hsame.
  - repeat split.
Qed.

(* ===================================================================== *)
(** ** Teardown *)
(* ===================================================================== *)

Lemma cleanup_run o :
  cleanup o =
    (tt,
     {| m_streamUrl := m_streamUrl o; m_pipeline := None; m_mainloop := None;
        m_quit := m_quit o;
        loop_is_running :=
          match m_mainloop o with
          | Some _ => false
          | None => loop_is_running o
          end |},
     (match m_pipeline o with
      | Some _ => [gst_element_set_state (m_pipeline o) GST_STATE_NULL;
                   gst_object_unref (ref_element (m_pipeline o))]
      | None => []
      end
      ++ match m_mainloop o with
         | Some _ =>
             (if loop_is_running o
              then [g_main_loop_quit (m_mainloop o)] else [])
             ++ [g_main_loop_unref (m_mainloop o)]
         | None => []
         end
      ++ cleanup_complete)%list).
Proof.
  destruct o as [url [p|] [l|] q [|]]; reflexivity.
Qed.

(** C8 (confirmed): [cleanup] twice in a row.  The second call finds both
    pointers null, so it only prints its last line and leaves the object
    as the first call left it; over the two calls the pipeline and the
    main loop are each released once if they were there and never
    otherwise; on an object that was never set up the first call already
    releases nothing. *)
Theorem C8_cleanup_idempotent (o : MyVideoPlayer) (url : string) :
  let first := cleanup o in
  let second := cleanup (object_of first) in
  m_pipeline (object_of first) = None
  /\ m_mainloop (object_of first) = None
  /\ object_of second = object_of first
  /\ effects_of second = cleanup_complete
  /\ releases (effects_of first ++ effects_of second)
     = (match m_pipeline o with
        | Some _ => [gst_object_unref (ref_element (m_pipeline o))]
        | None => []
        end
        ++ match m_mainloop o with
           | Some _ => [g_main_loop_unref (m_mainloop o)]
           | None => []
           end)%list
  /\ cleanup (MyVideoPlayer_new url) = (tt, MyVideoPlayer_new url, cleanup_complete).
Proof.
  destruct o as [u [p|] [l|] q [|]]; repeat split.
Qed.

(* ===================================================================== *)
(** ** The track inspector *)
(* ===================================================================== *)

Lemma listTracks_body_run eng type signalName i o :
  listTracks_body eng type signalName i o
    = (tt, o, track_report eng type signalName (m_pipeline o) i).
Proof.
  unfold listTracks_body, track_report, bind, this, emit.
  destruct (tags_of eng signalName i) as [tags|]; [|reflexivity].
  now destruct (GST_TAG_LANGUAGE_CODE tags).
Qed.

Lemma listTracks_from_run eng type signalName count o :
  forall n i fuel,
    count = i + Z.of_nat n -> (n <= fuel)%nat ->
    listTracks_from eng type signalName count fuel i o
      = (true, o,
         flat_map (track_report eng type signalName (m_pipeline o))
           (map (fun k => i + Z.of_nat k) (seq 0 n))).
Proof.
  induction n as [|n IH]; intros i fuel Hc Hf.
  - assert (E : (i <? count) = false) by (apply Z.ltb_ge; lia).
    destruct fuel; cbn [listTracks_from]; now rewrite E.
  - assert (E : (i <? count) = true) by (apply Z.ltb_lt; lia).
    destruct fuel as [|fuel]; [lia|].
    cbn [listTracks_from]. rewrite E.
    unfold bind. rewrite listTracks_body_run.
    rewrite (IH (i + 1) fuel) by lia.
    cbn [seq map flat_map].
    rewrite <- seq_shift, map_map.
    replace (i + Z.of_nat 0) with i by lia.
    f_equal. f_equal. f_equal.
    apply map_ext. intros k. lia.
Qed.

Lemma listTracks_run eng type count signalName o :
  listTracks eng type count signalName o
    = (true, o,
       flat_map (track_report eng type signalName (m_pipeline o))
         (indices count)).
Proof.
  unfold listTracks, indices.
  destruct (Z.le_gt_cases count 0) as [Hle|Hgt].
  - replace (Z.to_nat count) with 0%nat by lia.
    cbn [listTracks_from seq map flat_map].
    assert (E : (0 <? count) = false) by (apply Z.ltb_ge; lia).
    now rewrite E.
  - rewrite (listTracks_from_run _ _ _ _ _ (Z.to_nat count)) by lia.
    reflexivity.
Qed.

Lemma indices_range count i : In i (indices count) <-> 0 <= i < count.
Proof.
  unfold indices. rewrite in_map_iff. split.
  - intros (k & <- & Hk). apply in_seq in Hk. lia.
  - intros H. exists (Z.to_nat i). split; [lia|]. apply in_seq. lia.
Qed.

(** C9 (confirmed): [showStreamDetails] first sleeps three seconds.  If
    the pipeline pointer is null after that it returns without any other
    effect.  Otherwise it reads the three counts, prints them (video,
    audio, subtitle), and then, for audio and for subtitles, walks the
    indices [0, count) in order, printing a track's language only where
    a tag list came back and holds a language code; both loops run to
    their end. *)
Theorem C9_track_inspector (eng : Engine) (o : MyVideoPlayer) :
  showStreamDetails eng o =
    (tt, o,
     sleep_for_seconds 3 ::
     match m_pipeline o with
     | None => []
     | Some _ =>
         [g_object_get_int (m_pipeline o) "n-audio";
          g_object_get_int (m_pipeline o) "n-text";
          g_object_get_int (m_pipeline o) "n-video";
          cout "Stream Discovery:";
          cout ("Video tracks: " ++ show_int (n_video eng) ++ endl);
          cout ("Audio tracks: " ++ show_int (n_audio eng) ++ endl);
          cout ("Subtitle tracks: " ++ show_int (n_text eng) ++ endl)]
         ++ flat_map (track_report eng "Audio" "get-audio-tags" (m_pipeline o))
              (indices (n_audio eng))
         ++ flat_map (track_report eng "Subtitle" "get-text-tags" (m_pipeline o))
              (indices (n_text eng))
     end%list)
  /\ (forall count i, In i (indices count) <-> 0 <= i < count)
  /\ value_of (listTracks eng "Audio" (n_audio eng) "get-audio-tags" o) = true
  /\ value_of (listTracks eng "Subtitle" (n_text eng) "get-text-tags" o) = true
  /\ (forall type signalName i,
        existsb is_log (track_report eng type signalName (m_pipeline o) i)
        = match tags_of eng signalName i with
          | Some tags =>
              match GST_TAG_LANGUAGE_CODE tags with
              | Some _ => true
              | None => false
              end
          | None => false
          end).
Proof.
  split; [|split; [exact indices_range|split; [|split]]].
  - unfold showStreamDetails, showStreamDetails_awake.
    unfold bind at 1. cbn [emit]. unfold bind at 1. cbn [this].
    destruct (m_pipeline o) as [p|] eqn:Hp; [|reflexivity].
    unfold bind. cbn [emit ret].
    rewrite !listTracks_run. rewrite Hp.
    cbn [app]. now rewrite app_nil_r.
  - now rewrite listTracks_run.
  - now rewrite listTracks_run.
  - intros type signalName i. unfold track_report.
    destruct (tags_of eng signalName i) as [tags|]; [|reflexivity].
    now destruct (GST_TAG_LANGUAGE_CODE tags).
Qed.

(* ===================================================================== *)
(** ** The process *)
(* ===================================================================== *)

Lemma settle_consistent e l p : unsettled e l p -> consistent e l (settle p).
Proof.
  destruct p as [[u pl ml q rn] out mpc ipc fpc].
  unfold unsettled, consistent, settle. cbn.
  intros (-> & -> & Hq & Hm).
  destruct mpc as [| |c]; [| |contradiction].
  - destruct rn; cbn; [auto|].
    destruct ipc; cbn; rewrite ?app_nil_r.
    + repeat split; auto.
    + split; [reflexivity|]. exists out. split; [reflexivity | auto].
  - destruct Hm as [-> ->].
    destruct ipc; cbn; rewrite ?app_nil_r.
    + repeat split; auto.
    + split; [reflexivity|]. exists out. split; [reflexivity | auto].
Qed.

Lemma handle_line_quits_or_keeps cmd : quits_or_keeps (handle_line cmd).
Proof.
  intros o r. subst r.
  destruct (string_dec cmd "q") as [->|Hq].
  - right. rewrite handle_line_q. split; [reflexivity|]. right. now left.
  - left. now rewrite handle_line_other.
Qed.

Lemma handleBusMessage_quits_or_keeps msg : quits_or_keeps (handleBusMessage msg).
Proof.
  intros o r. subst r.
  destruct msg as [err debug| |src old current pending|kind src].
  - right. destruct o as [u p [l|] q b]; split; try reflexivity;
      cbn; auto.
  - right. destruct o as [u p [l|] q b]; split; try reflexivity;
      cbn; auto.
  - left. unfold handleBusMessage, bind, this.
    now destruct (same_object src (m_pipeline o)).
  - left. reflexivity.
Qed.

Lemma showStreamDetails_awake_keeps eng o :
  object_of (showStreamDetails_awake eng o) = o.
Proof.
  unfold showStreamDetails_awake. unfold bind at 1. cbn [this].
  destruct (m_pipeline o); [|reflexivity].
  unfold bind. cbn [emit]. now rewrite !listTracks_run.
Qed.

Lemma exec_unsettled {A} e l (m : M A) p :
  quits_or_keeps m -> consistent e l p ->
  (forall c, main_at p <> exited c) ->
  unsettled e l (snd (exec m p)).
Proof.
  intros Hm Hc Hne. specialize (Hm (player p)). cbn zeta in Hm.
  unfold exec. destruct (m (player p)) as [[a o'] t] eqn:E.
  unfold object_of, effects_of in Hm. cbn [fst snd] in Hm.
  unfold unsettled, consistent in *. cbn [snd player output main_at].
  destruct (main_at p) as [| |c] eqn:Em.
  - destruct Hc as (Hp & Hl & Hr).
    destruct Hm as [->|[-> Hin]].
    + repeat split; auto. congruence.
    + unfold quit_requested. rewrite Hl. cbn.
      repeat split; auto. intros _. apply in_or_app. right. now rewrite <- Hl.
  - destruct Hc as (Hp & Hl & Hr & Hq & _ & Hin).
    destruct Hm as [->|[-> Hin']].
    + repeat split; auto. intros _. apply in_or_app. now left.
    + unfold quit_requested. rewrite Hl. cbn.
      repeat split; auto. intros _. apply in_or_app. now left.
  - now elim (Hne c).
Qed.

Lemma step_consistent eng e l p ev :
  consistent e l p -> consistent e l (step eng p ev).
Proof.
  intros Hc. unfold step.
  destruct (main_at p) as [| |c] eqn:Em; [| |assumption].
  - (* the main thread is in its loop *)
    destruct ev as [msg|cmd| |].
    + apply settle_consistent, exec_unsettled;
        [apply handleBusMessage_quits_or_keeps | assumption | congruence].
    + destruct (input_at p) eqn:Ei; [|assumption].
      apply settle_consistent.
      assert (Hne : forall c, main_at p <> exited c) by congruence.
      pose proof (exec_unsettled e l (handle_line cmd) p
                    (handle_line_quits_or_keeps cmd) Hc Hne) as Hu.
      unfold input_thread_line.
      destruct (exec (handle_line cmd) p) as [c p1]. cbn [snd] in Hu.
      destruct c; [exact Hu|].
      now destruct (m_quit (player p1)).
    + destruct (input_at p) eqn:Ei; [|assumption].
      apply settle_consistent.
      unfold consistent in Hc. rewrite Em in Hc. destruct Hc as (Hp & Hl & Hr).
      unfold unsettled. cbn. rewrite Em. repeat split; auto. congruence.
    + destruct (info_at p); [|assumption].
      unfold consistent in *. unfold exec.
      pose proof (showStreamDetails_awake_keeps eng (player p)) as Hk.
      destruct (showStreamDetails_awake eng (player p)) as [[a o'] t].
      unfold object_of in Hk. cbn in Hk. subst o'. cbn.
      now rewrite Em in *.
  - (* the main thread waits in join *)
    destruct ev as [msg|cmd| |].
    + assumption.
    + destruct (input_at p) eqn:Ei; [|assumption].
      apply settle_consistent.
      assert (Hne : forall c, main_at p <> exited c) by congruence.
      pose proof (exec_unsettled e l (handle_line cmd) p
                    (handle_line_quits_or_keeps cmd) Hc Hne) as Hu.
      unfold input_thread_line.
      destruct (exec (handle_line cmd) p) as [c p1]. cbn [snd] in Hu.
      destruct c; [exact Hu|].
      now destruct (m_quit (player p1)).
    + destruct (input_at p) eqn:Ei; [|assumption].
      apply settle_consistent.
      unfold consistent in Hc. rewrite Em in Hc.
      destruct Hc as (Hp & Hl & Hr & Hq & _ & Hin).
      unfold unsettled. cbn. rewrite Em. repeat split; auto.
    + destruct (info_at p); [|assumption].
      unfold consistent in *. unfold exec.
      pose proof (showStreamDetails_awake_keeps eng (player p)) as Hk.
      destruct (showStreamDetails_awake eng (player p)) as [[a o'] t].
      unfold object_of in Hk. cbn in Hk. subst o'. cbn.
      rewrite Em in *.
      destruct Hc as (Hp & Hl & Hr & Hq & Hi & Hin).
      repeat split; auto. apply in_or_app. now left.
Qed.

Lemma run_consistent eng e l schedule : forall p,
  consistent e l p -> consistent e l (run eng p schedule).
Proof.
  unfold run.
  induction schedule as [|ev rest IH]; intros p Hc; [assumption|].
  cbn [fold_left]. apply IH. now apply step_consistent.
Qed.

Lemma run_app eng p s1 s2 : run eng p (s1 ++ s2) = run eng (run eng p s1) s2.
Proof. apply fold_left_app. Qed.

(** From wherever the process stands, an error or end-of-stream message
    followed by the end of standard input brings it to its exit. *)
Lemma run_reaches_exit eng e l p msg :
  stops_loop msg = true -> consistent e l p ->
  main_at (run eng p [bus_message msg; stdin_eof]) = exited 0.
Proof.
  intros Hs Hc.
  destruct p as [[u pl ml q rn] out mpc ipc fpc].
  unfold consistent in Hc. cbn in Hc.
  destruct mpc as [| |c].
  - destruct Hc as (-> & -> & ->).
    destruct msg as [err debug| | |]; try discriminate;
      destruct ipc; reflexivity.
  - destruct Hc as (-> & -> & -> & -> & -> & _). reflexivity.
  - destruct Hc as [-> _]. reflexivity.
Qed.

Lemma main_usage argv eng schedule :
  Z.of_nat (List.length argv) < 2 ->
  main argv eng schedule =
    {| exit_code := Some 1;
       effects :=
         [cerr ("Usage: " ++ nth 0 argv "" ++ " <stream_url>");
          cerr ("Example: " ++ nth 0 argv ""
                ++ " https://test-streams.mux.dev/x36xhzz/x36xhzz.m3u8")] |}.
Proof.
  intros H. unfold main. apply Z.ltb_lt in H. now rewrite H.
Qed.

Lemma main_fatal argv eng schedule :
  2 <= Z.of_nat (List.length argv) -> playbin eng = None ->
  main argv eng schedule =
    {| exit_code := Some 2;
       effects :=
         [cout ("MyVideoPlayer initializing for: " ++ nth 1 argv "" ++ endl);
          gst_init;
          gst_element_factory_make "playbin" "my-player";
          cerr ("FATAL: Could not create playbin!" ++ endl);
          cout ("Cleanup complete" ++ endl)] |}.
Proof.
  intros H Hp. unfold main. apply Z.ltb_ge in H. rewrite H.
  unfold constructor, setupPlayer, bind. cbn. rewrite Hp. reflexivity.
Qed.

Lemma main_started argv eng schedule e :
  2 <= Z.of_nat (List.length argv) -> playbin eng = Some e ->
  main argv eng schedule = outcome_of (run eng (started argv eng) schedule)
  /\ consistent e (new_loop eng) (started argv eng).
Proof.
  intros H Hp. unfold main, started. apply Z.ltb_ge in H. rewrite H.
  unfold constructor, setupPlayer, bind. cbn. rewrite Hp. cbn.
  split; [reflexivity|]. unfold consistent. cbn. auto.
Qed.

Lemma exit_code_outcome p c :
  exit_code (outcome_of p) = Some c <-> main_at p = exited c.
Proof.
  unfold outcome_of. cbn. destruct (main_at p); split; congruence.
Qed.

(** A whole session: "a2", then "q".  The audio switch comes before the
    shutdown, the later line is never read, and the teardown closes the
    run with code 0. *)
Example session_a2_then_q :
  let r := main ["player"; "http://h/s.m3u8"] (engine_with (Some 1%nat))
             [stdin_line "a2"; stdin_line "q"; stdin_line "s1"] in
  exit_code r = Some 0
  /\ effects r =
       (output (started ["player"; "http://h/s.m3u8"] (engine_with (Some 1%nat)))
        ++ [g_object_set_int (Some 1%nat) "current-audio" 2;
            cout ("Switched to audio track #2" ++ endl);
            cout ("Shutting down..." ++ endl);
            g_main_loop_quit (Some 2%nat)]
        ++ teardown 1%nat 2%nat)%list.
Proof. split; reflexivity. Qed.

(** C5 (confirmed): the exit code of [main].  With no argument after the
    program name it is 1.  With one, if the playbin cannot be made it is
    2.  Otherwise the process ends only through the end of
    [startPlayback]: whenever it has ended its code is 0, the main loop
    was asked to quit before, and the last thing done is the teardown;
    and it does end, with 0, once a message that stops the loop and the
    end of standard input have come. *)
Theorem C5_exit_codes (argv : list string) (eng : Engine) (schedule : list event) :
  (Z.of_nat (List.length argv) < 2 ->
   exit_code (main argv eng schedule) = Some 1)
  /\ (2 <= Z.of_nat (List.length argv) -> playbin eng = None ->
      exit_code (main argv eng schedule) = Some 2)
  /\ (2 <= Z.of_nat (List.length argv) ->
      forall e, playbin eng = Some e ->
        (forall c, exit_code (main argv eng schedule) = Some c ->
           c = 0
           /\ exists pre,
                effects (main argv eng schedule)
                  = (pre ++ teardown e (new_loop eng))%list
                /\ In (g_main_loop_quit (Some (new_loop eng))) pre)
        /\ exit_code (main argv eng
                        (schedule ++ [bus_message GST_MESSAGE_EOS; stdin_eof]))
           = Some 0).
Proof.
  split; [|split].
  - intros H. now rewrite main_usage.
  - intros H Hp. now rewrite main_fatal.
  - intros H e Hp.
    destruct (main_started argv eng schedule e H Hp) as [Hm Hc].
    split.
    + intros c Hx. rewrite Hm in *.
      apply exit_code_outcome in Hx.
      pose proof (run_consistent eng e _ schedule _ Hc) as Hr.
      unfold consistent in Hr. rewrite Hx in Hr. exact Hr.
    + destruct (main_started argv eng
                  (schedule ++ [bus_message GST_MESSAGE_EOS; stdin_eof]) e H Hp)
        as [Hm' _].
      rewrite Hm'. apply exit_code_outcome.
      rewrite run_app.
      apply (run_reaches_exit eng e (new_loop eng)); [reflexivity|].
      now apply run_consistent.
Qed.

Lemma C5_exit_codes_witness :
  exit_code (main ["player"] (engine_with (Some 1%nat)) []) = Some 1
  /\ exit_code (main ["player"; "http://h/s.m3u8"] (engine_with None) []) = Some 2
  /\ exit_code (main ["player"; "http://h/s.m3u8"] (engine_with (Some 1%nat))
                  ([stdin_line "a1"] ++ [bus_message GST_MESSAGE_EOS; stdin_eof]))
     = Some 0.
Proof.
  split; [|split].
  - apply (C5_exit_codes ["player"] (engine_with (Some 1%nat)) []).
    vm_compute. reflexivity.
  - apply (C5_exit_codes ["player"; "http://h/s.m3u8"] (engine_with None) []).
    + vm_compute. discriminate.
    + reflexivity.
  - apply (C5_exit_codes ["player"; "http://h/s.m3u8"]
             (engine_with (Some 1%nat)) [stdin_line "a1"]) with (e := 1%nat).
    + vm_compute. discriminate.
    + reflexivity.
Defined.

(** C6 (confirmed): if the playbin cannot be made, [main] returns 2 after
    the fatal message and the destructor's (empty) cleanup; no thread is
    started, the pipeline is not set to PLAYING and the main loop is not
    run, whatever arrives from outside. *)
Theorem C6_construction_failure_exits_early
    (argv : list string) (eng : Engine) (schedule : list event) :
  2 <= Z.of_nat (List.length argv) -> playbin eng = None ->
  exit_code (main argv eng schedule) = Some 2
  /\ effects (main argv eng schedule) =
       [cout ("MyVideoPlayer initializing for: " ++ nth 1 argv "" ++ endl);
        gst_init;
        gst_element_factory_make "playbin" "my-player";
        cerr ("FATAL: Could not create playbin!" ++ endl);
        cout ("Cleanup complete" ++ endl)]
  /\ existsb starts_threads_or_playback (effects (main argv eng schedule)) = false
  /\ value_of (setupPlayer eng (MyVideoPlayer_new (nth 1 argv ""))) = false.
Proof.
  intros H Hp. rewrite main_fatal by assumption.
  repeat split.
  unfold setupPlayer, bind. cbn. now rewrite Hp.
Qed.

Lemma C6_construction_failure_exits_early_witness :
  exit_code (main ["player"; "http://h/s.m3u8"] (engine_with None)
               [stdin_line "a1"; info_wakes; stdin_line "q"]) = Some 2
  /\ existsb starts_threads_or_playback
       (effects (main ["player"; "http://h/s.m3u8"] (engine_with None)
                   [stdin_line "a1"; info_wakes; stdin_line "q"])) = false.
Proof.
  assert (H1 : 2 <= Z.of_nat (List.length ["player"; "http://h/s.m3u8"]))
    by (vm_compute; discriminate).
  assert (H2 : playbin (engine_with None) = None) by reflexivity.
  destruct (C6_construction_failure_exits_early
              ["player"; "http://h/s.m3u8"] (engine_with None)
              [stdin_line "a1"; info_wakes; stdin_line "q"] H1 H2)
    as (Ha & _ & Hc & _).
  split; [exact Ha | exact Hc].
Defined.

(** C7 (confirmed): an error on the bus does not change the exit code.
    The handler does to the object exactly what it does on end of stream;
    a run in which an error message occurs can only end with code 0, and
    it does end with 0 once standard input has ended, as the same run
    with end-of-stream in place of the error does; when the error is the
    first thing to arrive it is written to [std::cerr] and the teardown
    closes the run. *)
Theorem C7_bus_error_keeps_exit_code
    (argv : list string) (eng : Engine) (before after_it : list event)
    (err debug : option string) (e : GstElement) :
  2 <= Z.of_nat (List.length argv) -> playbin eng = Some e ->
  let error := bus_message (GST_MESSAGE_ERROR err debug) in
  let eos := bus_message GST_MESSAGE_EOS in
  (forall o, object_of (handleBusMessage (GST_MESSAGE_ERROR err debug) o)
             = object_of (handleBusMessage GST_MESSAGE_EOS o))
  /\ (forall c, exit_code (main argv eng (before ++ error :: after_it)) = Some c ->
        c = 0)
  /\ exit_code (main argv eng (before ++ [error; stdin_eof])) = Some 0
  /\ exit_code (main argv eng (before ++ [error; stdin_eof]))
     = exit_code (main argv eng (before ++ [eos; stdin_eof]))
  /\ effects (main argv eng [error; stdin_eof])
     = (output (started argv eng)
        ++ [cerr ("PLAYER ERROR: " ++ or_else err "Unknown error"
                  ++ "Debug: " ++ or_else debug "No debug info" ++ endl);
            g_clear_error; g_free;
            g_main_loop_quit (Some (new_loop eng))]
        ++ teardown e (new_loop eng))%list.
Proof.
  intros H Hp error eos.
  assert (Hend : forall msg, stops_loop msg = true ->
            exit_code (main argv eng (before ++ [bus_message msg; stdin_eof]))
            = Some 0).
  { intros msg Hs.
    destruct (main_started argv eng (before ++ [bus_message msg; stdin_eof])
                e H Hp) as [Hm Hc].
    rewrite Hm. apply exit_code_outcome. rewrite run_app.
    apply (run_reaches_exit eng e (new_loop eng)); [assumption|].
    now apply run_consistent. }
  split; [|split; [|split; [|split]]].
  - intros o. now destruct o as [u p [l|] q b].
  - intros c Hx.
    destruct (main_started argv eng (before ++ error :: after_it) e H Hp)
      as [Hm Hc].
    rewrite Hm in Hx. apply exit_code_outcome in Hx.
    pose proof (run_consistent eng e _ (before ++ error :: after_it) _ Hc) as Hr.
    unfold consistent in Hr. rewrite Hx in Hr. tauto.
  - now apply Hend.
  - unfold error, eos. now rewrite !Hend.
  - destruct (main_started argv eng [error; stdin_eof] e H Hp) as [Hm _].
    rewrite Hm. unfold started, constructor, setupPlayer, bind. cbn.
    rewrite Hp. reflexivity.
Qed.

Lemma C7_bus_error_keeps_exit_code_witness :
  exit_code
    (main ["player"; "http://h/s.m3u8"] (engine_with (Some 1%nat))
       ([stdin_line "a1"]
        ++ [bus_message (GST_MESSAGE_ERROR (Some "Could not resolve") None);
            stdin_eof])) = Some 0.
Proof.
  assert (H1 : 2 <= Z.of_nat (List.length ["player"; "http://h/s.m3u8"]))
    by (vm_compute; discriminate).
  assert (H2 : playbin (engine_with (Some 1%nat)) = Some 1%nat) by reflexivity.
  exact (proj1 (proj2 (proj2
           (C7_bus_error_keeps_exit_code ["player"; "http://h/s.m3u8"]
              (engine_with (Some 1%nat)) [stdin_line "a1"] []
              (Some "Could not resolve") None 1%nat H1 H2)))).
Defined.

(* ===================================================================== *)
(** ** The read loop as a whole *)
(* ===================================================================== *)

Lemma handleUserInput_loop_quit lines o :
  m_quit o = true -> handleUserInput_loop lines o = (lines, o, []).
Proof.
  intros Hq. destruct lines; cbn [handleUserInput_loop];
    unfold bind, this; now rewrite Hq.
Qed.

Lemma handleUserInput_loop_eof o :
  handleUserInput_loop [] o = ([], o, []).
Proof.
  cbn [handleUserInput_loop]. unfold bind, this. now destruct (m_quit o).
Qed.

Lemma handleUserInput_loop_no_q (lines : list string) (o : MyVideoPlayer) :
  m_quit o = false -> ~ In "q" lines ->
  handleUserInput_loop lines o = ([], o, per_line o lines).
Proof.
  intros Hq. induction lines as [|cmd rest IH]; intros Hn.
  - apply handleUserInput_loop_eof.
  - assert (Hc : cmd <> "q") by (intros ->; apply Hn; now left).
    rewrite (loop_continue_step cmd rest o o (effects_of (handle_line cmd o)))
      by (assumption || now rewrite handle_line_other).
    rewrite IH by (intros Hin; apply Hn; now right).
    reflexivity.
Qed.

(** The loop on lines none of which is "q": every line is read and
    handled in turn, the loop ends on the end of input, and the object is
    as before. *)
Theorem loop_reads_every_line (lines : list string) (o : MyVideoPlayer) :
  m_quit o = false -> ~ In "q" lines ->
  handleUserInput_loop lines o = ([], o, per_line o lines).
Proof.
  intros Hq. induction lines as [|cmd rest IH]; intros Hn.
  - apply handleUserInput_loop_eof.
  - assert (Hc : cmd <> "q") by (intros ->; apply Hn; now left).
    rewrite (loop_continue_step cmd rest o o (effects_of (handle_line cmd o)))
      by (assumption || now rewrite handle_line_other).
    rewrite IH by (intros Hin; apply Hn; now right).
    reflexivity.
Qed.

Lemma loop_reads_every_line_witness :
  handleUserInput_loop ["a1"; "xyz"; "s0"] playing_player
    = ([], playing_player,
       (audio_switched playing_player 1 ++ subtitle_switched playing_player 0)%list).
Proof.
  assert (H1 : m_quit playing_player = false) by reflexivity.
  assert (H2 : ~ In "q" ["a1"; "xyz"; "s0"]).
  { intros [H|[H|[H|[]]]]; discriminate H. }
  exact (loop_reads_every_line ["a1"; "xyz"; "s0"] playing_player H1 H2).
Defined.

Lemma handleUserInput_loop_first_q
    (before unread : list string) (o : MyVideoPlayer) :
  m_quit o = false -> ~ In "q" before ->
  handleUserInput_loop (before ++ "q" :: unread) o
    = (unread, quit_requested o, (per_line o before ++ shutting_down o)%list).
Proof.
  intros Hq. induction before as [|cmd rest IH]; intros Hn.
  - cbn [app per_line flat_map].
    apply loop_break_step; [assumption | apply handle_line_q].
  - assert (Hc : cmd <> "q") by (intros ->; apply Hn; now left).
    cbn [app].
    rewrite (loop_continue_step cmd _ o o (effects_of (handle_line cmd o)))
      by (assumption || now rewrite handle_line_other).
    rewrite IH by (intros Hin; apply Hn; now right).
    unfold after, per_line. cbn [value_of object_of effects_of fst snd flat_map].
    now rewrite app_assoc.
Qed.

(** The loop stops at the first "q": the lines before it are handled, the
    shutdown is logged and the main loop asked to quit once, and the lines
    after it come back unread. *)
Theorem loop_stops_at_first_q (before unread : list string) (o : MyVideoPlayer) :
  m_quit o = false -> ~ In "q" before ->
  handleUserInput_loop (before ++ "q" :: unread) o
    = (unread, quit_requested o, (per_line o before ++ shutting_down o)%list).
Proof.
  intros Hq. induction before as [|cmd rest IH]; intros Hn.
  - cbn [app per_line flat_map].
    apply loop_break_step; [assumption | apply handle_line_q].
  - assert (Hc : cmd <> "q") by (intros ->; apply Hn; now left).
    cbn [app].
    rewrite (loop_continue_step cmd _ o o (effects_of (handle_line cmd o)))
      by (assumption || now rewrite handle_line_other).
    rewrite IH by (intros Hin; apply Hn; now right).
    unfold after, per_line. cbn [value_of object_of effects_of fst snd flat_map].
    now rewrite app_assoc.
Qed.

Lemma loop_stops_at_first_q_witness :
  handleUserInput_loop (["a2"] ++ "q" :: ["s1"; "q"]) playing_player
    = (["s1"; "q"], set_running false playing_player,
       (audio_switched playing_player 2 ++ shutting_down playing_player)%list).
Proof.
  assert (H1 : m_quit playing_player = false) by reflexivity.
  assert (H2 : ~ In "q" ["a2"]).
  { intros [H|[]]; discriminate H. }
  exact (loop_stops_at_first_q ["a2"] ["s1"; "q"] playing_player H1 H2).
Defined.

(* ===================================================================== *)
(** ** What the interpreter writes to the engine *)
(* ===================================================================== *)

Lemma same_object_refl p : same_object p p = true.
Proof. now apply same_object_eq. Qed.

Lemma stoi_value_in_range s v : stoi s = stoi_value v -> in_int_range v = true.
Proof.
  unfold stoi. destruct (strtol10 s) as [w|]; [|discriminate].
  destruct (in_int_range w) eqn:E; [|discriminate].
  now intros [= <-].
Qed.

Lemma handle_line_writes_ok cmd o :
  forallb (track_write_ok (m_pipeline o)) (effects_of (handle_line cmd o)) = true.
Proof.
  destruct (string_dec cmd "q") as [->|Hq].
  - now rewrite handle_line_q.
  - rewrite handle_line_other by assumption. cbn [effects_of snd].
    destruct (_ && _)%bool; [|reflexivity].
    destruct (stoi (substr1 cmd)) as [v| |] eqn:Es; try reflexivity.
    apply stoi_value_in_range in Es.
    destruct (Ascii.eqb (at0 cmd) "a"); cbn;
      now rewrite same_object_refl, Es.
Qed.

Lemma handle_line_keeps_pipeline cmd o :
  m_pipeline (object_of (handle_line cmd o)) = m_pipeline o.
Proof.
  destruct (string_dec cmd "q") as [->|Hq].
  - rewrite handle_line_q. cbn. unfold quit_requested.
    now destruct (m_mainloop o).
  - now rewrite handle_line_other.
Qed.

Lemma handleUserInput_loop_writes_ok lines : forall o,
  forallb (track_write_ok (m_pipeline o))
    (effects_of (handleUserInput_loop lines o)) = true.
Proof.
  induction lines as [|cmd rest IH]; intros o.
  - now rewrite handleUserInput_loop_eof.
  - destruct (m_quit o) eqn:Hq.
    + now rewrite handleUserInput_loop_quit.
    + pose proof (handle_line_writes_ok cmd o) as Hw.
      pose proof (handle_line_keeps_pipeline cmd o) as Hp.
      destruct (handle_line cmd o) as [[c o'] t] eqn:E.
      cbn [object_of effects_of fst snd] in Hw, Hp.
      destruct c.
      * now rewrite (loop_break_step cmd rest o o' t).
      * rewrite (loop_continue_step cmd rest o o' t) by assumption.
        unfold after. cbn [effects_of snd].
        rewrite forallb_app, Hw. cbn [andb].
        rewrite <- Hp. apply IH.
Qed.

(** Whatever comes on standard input, [handleUserInput] writes to the
    engine only the two track properties of its own pipeline, and only
    with an index that fits an [int]; it sets no other property, changes
    no state and releases nothing. *)
Theorem interpreter_only_switches_tracks (lines : list string) (o : MyVideoPlayer) :
  forallb (track_write_ok (m_pipeline o)) (effects_of (handleUserInput lines o))
    = true
  /\ (forall prop v,
        In (prop, v) (switch_calls (effects_of (handleUserInput lines o))) ->
        INT_MIN <= v <= INT_MAX).
Proof.
  assert (H : forallb (track_write_ok (m_pipeline o))
                (effects_of (handleUserInput lines o)) = true).
  { unfold handleUserInput, bind.
    pose proof (handleUserInput_loop_writes_ok lines o) as Hl.
    cbn [handleUserInput_banner bind emit].
    destruct (handleUserInput_loop lines o) as [[r o'] t].
    cbn [effects_of snd] in *. exact Hl. }
  split; [exact H|].
  intros prop v Hin. unfold switch_calls in Hin.
  apply in_flat_map in Hin as (e & He & Hs).
  rewrite forallb_forall in H. specialize (H e He).
  destruct e; cbn in Hs; try contradiction.
  cbn in H. apply andb_prop in H as [_ Hr].
  destruct (_ || _)%bool in Hs; [|contradiction].
  destruct Hs as [[= _ <-]|[]].
  unfold in_int_range in Hr. apply andb_prop in Hr as [H1 H2].
  apply Z.leb_le in H1, H2. now split.
Qed.

(* ===================================================================== *)
(** ** White space before the track number *)
(* ===================================================================== *)

Lemma skip_space_app ws s : all_space ws = true -> skip_space (ws ++ s) = skip_space s.
Proof.
  induction ws as [|c rest IH]; intros H; [reflexivity|].
  cbn [all_space] in H. apply andb_prop in H as [Hc Hr].
  cbn [append skip_space]. rewrite Hc. now apply IH.
Qed.

Lemma stoi_skips_space ws s : all_space ws = true -> stoi (ws ++ s) = stoi s.
Proof.
  intros H. unfold stoi, strtol10. now rewrite skip_space_app.
Qed.

(** [std::stoi] skips white space, so blanks between the letter and the
    number do not matter: 'a' or 's', any run of white space, an optional
    sign, digits and a tail not going on with a digit is the same track
    switch as without the white space, if the number fits an [int]. *)
Theorem blanks_before_track_number
    (c : ascii) (ws : string) (sg : sign) (ds tail : string) (o : MyVideoPlayer) :
  is_a_or_s c = true -> all_space ws = true ->
  ds <> "" -> all_digits ds = true -> starts_with_digit tail = false ->
  in_int_range (signed sg (decimal_value ds)) = true ->
  handle_line (String c (ws ++ sign_text sg ++ ds ++ tail)) o
    = (loop_continue, o,
       if Ascii.eqb c "a"
       then audio_switched o (signed sg (decimal_value ds))
       else subtitle_switched o (signed sg (decimal_value ds))).
Proof.
  intros Hc Hw Hne Hd Ht Hr.
  apply handle_line_switch; [assumption| |].
  - destruct ws; [|discriminate]. cbn [append].
    destruct sg; cbn [sign_text append]; try discriminate.
    destruct ds; [congruence | discriminate].
  - rewrite stoi_skips_space, stoi_signed by assumption. now rewrite Hr.
Qed.

Lemma blanks_before_track_number_witness :
  handle_line "a  5" playing_player
    = (loop_continue, playing_player, audio_switched playing_player 5).
Proof.
  assert (H1 : is_a_or_s "a" = true) by reflexivity.
  assert (H2 : all_space "  " = true) by reflexivity.
  assert (H3 : "5" <> "") by discriminate.
  assert (H4 : all_digits "5" = true) by reflexivity.
  assert (H5 : starts_with_digit "" = false) by reflexivity.
  assert (H6 : in_int_range (signed no_sign (decimal_value "5")) = true)
    by reflexivity.
  exact (blanks_before_track_number "a" "  " no_sign "5" "" playing_player
           H1 H2 H3 H4 H5 H6).
Defined.

(* ===================================================================== *)
(** ** Set-up against teardown *)
(* ===================================================================== *)

(** [setupPlayer] on a fresh object and then [cleanup]: the object is back
    as the constructor left it, whether or not the playbin could be made.
    [setupPlayer] answers [true] exactly when it could; then the pipeline
    and the main loop it took are each given back once by [cleanup],
    and when it could not nothing was taken and nothing is given back. *)
Theorem setup_then_cleanup_restores (eng : Engine) (url : string) :
  let set_up := setupPlayer eng (MyVideoPlayer_new url) in
  let torn_down := cleanup (object_of set_up) in
  object_of torn_down = MyVideoPlayer_new url
  /\ (value_of set_up = true <-> playbin eng <> None)
  /\ m_pipeline (object_of set_up) = playbin eng
  /\ m_mainloop (object_of set_up)
     = match playbin eng with Some _ => Some (new_loop eng) | None => None end
  /\ releases (effects_of set_up) = []
  /\ releases (effects_of torn_down)
     = match playbin eng with
       | Some e => [gst_object_unref (ref_element (Some e));
                    g_main_loop_unref (Some (new_loop eng))]
       | None => []
       end.
Proof.
  destruct eng as [[e|] l nv na nt tg]; cbn;
    repeat split; try reflexivity; try congruence.
Qed.

(* ===================================================================== *)
(** ** What the bus handler leaves alone *)
(* ===================================================================== *)

(** [handleBusMessage] never touches the pipeline: whatever the message,
    the URL, both pointers and [m_quit] are as before, nothing is written
    to the engine and nothing released; and it asks the main loop to quit
    exactly on an error or an end of stream. *)
Theorem bus_handler_only_logs_or_quits (msg : GstMessage) (o : MyVideoPlayer) :
  let r := handleBusMessage msg o in
  m_streamUrl (object_of r) = m_streamUrl o
  /\ m_pipeline (object_of r) = m_pipeline o
  /\ m_mainloop (object_of r) = m_mainloop o
  /\ m_quit (object_of r) = m_quit o
  /\ forallb (fun e => is_log e || is_loop_quit e
                       || match e with
                          | g_clear_error | g_free => true
                          | _ => false
                          end) (effects_of r) = true
  /\ existsb is_loop_quit (effects_of r) = stops_loop msg
  /\ (stops_loop msg = false -> object_of r = o).
Proof.
  destruct msg as [err debug| |src old current pending|kind src]; cbn zeta.
  - destruct o as [u p [l|] q b]; repeat split; discriminate.
  - destruct o as [u p [l|] q b]; repeat split; discriminate.
  - unfold handleBusMessage, bind, this.
    destruct (same_object src (m_pipeline o)); repeat split.
  - repeat split.
Qed.

(* ===================================================================== *)
(** ** The tag lists of [listTracks] *)
(* ===================================================================== *)

Lemma track_report_one eng type signalName p i :
  let t := track_report eng type signalName p i in
  flat_map emitted_index t = [i]
  /\ filter is_tag_unref t
     = (if has_tags eng signalName i then [gst_tag_list_unref] else [])
  /\ filter is_g_free t
     = (if has_language eng signalName i then [g_free] else [])
  /\ List.length (filter is_log t)
     = (if has_language eng signalName i then 1 else 0)%nat.
Proof.
  unfold track_report, has_tags, has_language. cbn zeta.
  destruct (tags_of eng signalName i) as [tags|]; [|repeat split].
  destruct (GST_TAG_LANGUAGE_CODE tags); repeat split.
Qed.

Lemma track_report_counts eng type signalName p l :
  let t := flat_map (track_report eng type signalName p) l in
  flat_map emitted_index t = l
  /\ List.length (filter is_tag_unref t)
     = List.length (filter (has_tags eng signalName) l)
  /\ List.length (filter is_g_free t)
     = List.length (filter (has_language eng signalName) l)
  /\ List.length (filter is_log t)
     = List.length (filter (has_language eng signalName) l).
Proof.
  induction l as [|i rest IH]; [repeat split|].
  cbn zeta in *. destruct IH as (I1 & I2 & I3 & I4).
  destruct (track_report_one eng type signalName p i) as (O1 & O2 & O3 & O4).
  cbn zeta in *. cbn [flat_map filter].
  rewrite flat_map_app, !filter_app, !length_app, I1, I2, I3, I4, O1, O2, O3, O4.
  destruct (has_tags eng signalName i), (has_language eng signalName i);
    repeat split.
Qed.

(** [listTracks] asks for the tags of every index of [0, count) once and
    in order, and of no other; it gives back every tag list it was handed
    and frees every language text it printed, once each, and never
    touches a null one.  A count of zero or less asks for nothing. *)
Theorem listTracks_balanced
    (eng : Engine) (type signalName : string) (count : Z) (o : MyVideoPlayer) :
  let r := listTracks eng type count signalName o in
  value_of r = true
  /\ object_of r = o
  /\ flat_map emitted_index (effects_of r) = indices count
  /\ List.length (filter is_tag_unref (effects_of r))
     = List.length (filter (has_tags eng signalName) (indices count))
  /\ List.length (filter is_g_free (effects_of r))
     = List.length (filter (has_language eng signalName) (indices count))
  /\ List.length (filter is_log (effects_of r))
     = List.length (filter (has_language eng signalName) (indices count))
  /\ (count <= 0 -> effects_of r = []).
Proof.
  cbn zeta. rewrite listTracks_run. cbn [value_of object_of effects_of fst snd].
  pose proof (track_report_counts eng type signalName (m_pipeline o)
                (indices count)) as (H1 & H2 & H3 & H4).
  repeat split; try assumption.
  intros Hle. unfold indices.
  now replace (Z.to_nat count) with 0%nat by lia.
Qed.

(* ===================================================================== *)
(** ** The trace of a run *)
(* ===================================================================== *)

Lemma forallb_weaken {A} (f g : A -> bool) l :
  (forall x, f x = true -> g x = true) ->
  forallb f l = true -> forallb g l = true.
Proof.
  intros Hfg H. rewrite forallb_forall in *. auto.
Qed.

Lemma handle_line_body cmd o :
  forallb body_effect (effects_of (handle_line cmd o)) = true.
Proof.
  destruct (string_dec cmd "q") as [->|Hq].
  - now rewrite handle_line_q.
  - rewrite handle_line_other by assumption. cbn [effects_of snd].
    destruct (_ && _)%bool; [|reflexivity].
    destruct (stoi (substr1 cmd)); try reflexivity.
    now destruct (Ascii.eqb (at0 cmd) "a").
Qed.

Lemma handleBusMessage_body msg o :
  forallb body_effect (effects_of (handleBusMessage msg o)) = true.
Proof.
  destruct msg as [err debug| |src old current pending|kind src].
  - now destruct o as [u p [l|] q b].
  - now destruct o as [u p [l|] q b].
  - unfold handleBusMessage, bind, this.
    now destruct (same_object src (m_pipeline o)).
  - reflexivity.
Qed.

Lemma track_report_inspector eng type signalName p l :
  forallb inspector_effect (flat_map (track_report eng type signalName p) l)
    = true.
Proof.
  induction l as [|i rest IH]; [reflexivity|].
  cbn [flat_map]. rewrite forallb_app, IH, andb_true_r.
  unfold track_report.
  destruct (tags_of eng signalName i) as [tags|]; [|reflexivity].
  now destruct (GST_TAG_LANGUAGE_CODE tags).
Qed.

Lemma showStreamDetails_awake_inspector eng o :
  forallb inspector_effect (effects_of (showStreamDetails_awake eng o)) = true.
Proof.
  unfold showStreamDetails_awake. unfold bind at 1. cbn [this].
  destruct (m_pipeline o) as [p|]; [|reflexivity].
  unfold bind. cbn [emit]. rewrite !listTracks_run.
  cbn [effects_of snd ret app forallb inspector_effect andb].
  now rewrite app_nil_r, forallb_app, !track_report_inspector.
Qed.

Lemma inspector_is_body e : inspector_effect e = true -> body_effect e = true.
Proof. now destruct e. Qed.

Lemma exec_fields {A} (m : M A) p :
  player (snd (exec m p)) = object_of (m (player p))
  /\ output (snd (exec m p)) = (output p ++ effects_of (m (player p)))%list
  /\ main_at (snd (exec m p)) = main_at p
  /\ input_at (snd (exec m p)) = input_at p
  /\ info_at (snd (exec m p)) = info_at p.
Proof.
  unfold exec. now destruct (m (player p)) as [[a o] t].
Qed.

Lemma input_thread_line_fields cmd p :
  player (input_thread_line cmd p) = object_of (handle_line cmd (player p))
  /\ output (input_thread_line cmd p)
     = (output p ++ effects_of (handle_line cmd (player p)))%list
  /\ main_at (input_thread_line cmd p) = main_at p
  /\ info_at (input_thread_line cmd p) = info_at p.
Proof.
  unfold input_thread_line, exec.
  destruct (handle_line cmd (player p)) as [[c o] t].
  destruct c; [now cbn|].
  cbn [player]. now destruct (m_quit o).
Qed.

Lemma input_thread_line_unsettled e l cmd p :
  consistent e l p -> (forall c, main_at p <> exited c) ->
  unsettled e l (input_thread_line cmd p).
Proof.
  intros Hc Hne.
  pose proof (exec_unsettled e l (handle_line cmd) p
                (handle_line_quits_or_keeps cmd) Hc Hne) as Hu.
  unfold input_thread_line.
  destruct (exec (handle_line cmd) p) as [c p1]. cbn [snd] in Hu.
  destruct c; [exact Hu|].
  now destruct (m_quit (player p1)).
Qed.

Lemma settle_output e l p :
  unsettled e l p ->
  output (settle p) = (output p ++ closing e l (settle p))%list.
Proof.
  destruct p as [[u pl ml q rn] out mpc ipc fpc].
  unfold unsettled, settle, closing. cbn.
  intros (-> & -> & Hq & Hm).
  destruct mpc as [| |c]; [| |contradiction].
  - destruct rn; cbn; [now rewrite app_nil_r|].
    destruct ipc; cbn; now rewrite ?app_nil_r.
  - destruct Hm as [-> ->].
    destruct ipc; cbn; now rewrite ?app_nil_r.
Qed.

Lemma run_exited eng p schedule c :
  main_at p = exited c -> run eng p schedule = p.
Proof.
  intros H. unfold run. induction schedule as [|ev rest IH]; [reflexivity|].
  cbn [fold_left]. unfold step at 2. now rewrite H.
Qed.

Lemma run_snoc eng p schedule ev :
  run eng p (schedule ++ [ev]) = step eng (run eng p schedule) ev.
Proof. now rewrite run_app. Qed.

(** One event adds effects of the three threads, and the teardown if the
    process ends with it. *)
Lemma step_output eng e l p ev :
  consistent e l p -> (forall c, main_at p <> exited c) ->
  exists t, forallb body_effect t = true
            /\ output (step eng p ev)
               = (output p ++ t ++ closing e l (step eng p ev))%list.
Proof.
  intros Hc Hne. unfold step.
  destruct (main_at p) as [| |c] eqn:Em; [| |now elim (Hne c)].
  - destruct ev as [msg|cmd| |].
    + exists (effects_of (handleBusMessage msg (player p))).
      split; [apply handleBusMessage_body|].
      rewrite (settle_output e l)
        by (apply exec_unsettled;
            [apply handleBusMessage_quits_or_keeps | assumption | congruence]).
      destruct (exec_fields (handleBusMessage msg) p) as (_ & -> & _).
      now rewrite app_assoc.
    + destruct (input_at p) eqn:Ei.
      * exists (effects_of (handle_line cmd (player p))).
        split; [apply handle_line_body|].
        rewrite (settle_output e l) by (apply input_thread_line_unsettled; [assumption | congruence]).
        destruct (input_thread_line_fields cmd p) as (_ & -> & _).
        now rewrite app_assoc.
      * exists []. split; [reflexivity|].
        unfold closing. rewrite Em. now rewrite !app_nil_r.
    + destruct (input_at p) eqn:Ei.
      * exists []. split; [reflexivity|].
        rewrite (settle_output e l); [reflexivity|].
        unfold consistent in Hc. rewrite Em in Hc. destruct Hc as (Hp & Hl & Hr).
        unfold unsettled. cbn. rewrite Em. repeat split; auto. congruence.
      * exists []. split; [reflexivity|].
        unfold closing. rewrite Em. now rewrite !app_nil_r.
    + destruct (info_at p).
      * exists (effects_of (showStreamDetails_awake eng (player p))).
        split.
        { eapply forallb_weaken; [apply inspector_is_body|].
          apply showStreamDetails_awake_inspector. }
        destruct (exec_fields (showStreamDetails_awake eng) p)
          as (_ & Ho & Hm & _).
        unfold closing. cbn [at_info output main_at].
        rewrite Ho, Hm, Em. now rewrite app_nil_r.
      * exists []. split; [reflexivity|].
        unfold closing. rewrite Em. now rewrite !app_nil_r.
  - destruct ev as [msg|cmd| |].
    + exists []. split; [reflexivity|].
      unfold closing. rewrite Em. now rewrite !app_nil_r.
    + destruct (input_at p) eqn:Ei.
      * exists (effects_of (handle_line cmd (player p))).
        split; [apply handle_line_body|].
        rewrite (settle_output e l) by (apply input_thread_line_unsettled; [assumption | congruence]).
        destruct (input_thread_line_fields cmd p) as (_ & -> & _).
        now rewrite app_assoc.
      * exists []. split; [reflexivity|].
        unfold closing. rewrite Em. now rewrite !app_nil_r.
    + destruct (input_at p) eqn:Ei.
      * exists []. split; [reflexivity|].
        rewrite (settle_output e l); [reflexivity|].
        unfold consistent in Hc. rewrite Em in Hc.
        destruct Hc as (Hp & Hl & Hr & Hq & _ & Hin).
        unfold unsettled. cbn. rewrite Em. repeat split; auto.
      * exists []. split; [reflexivity|].
        unfold closing. rewrite Em. now rewrite !app_nil_r.
    + destruct (info_at p).
      * exists (effects_of (showStreamDetails_awake eng (player p))).
        split.
        { eapply forallb_weaken; [apply inspector_is_body|].
          apply showStreamDetails_awake_inspector. }
        destruct (exec_fields (showStreamDetails_awake eng) p)
          as (_ & Ho & Hm & _).
        unfold closing. cbn [at_info output main_at].
        rewrite Ho, Hm, Em. now rewrite app_nil_r.
      * exists []. split; [reflexivity|].
        unfold closing. rewrite Em. now rewrite !app_nil_r.
Qed.

(** The trace of a run: what was there at the start, then effects of the
    three threads only, then the teardown if the process has ended. *)
Lemma run_output eng e l p schedule :
  consistent e l p -> (forall c, main_at p <> exited c) ->
  exists body, forallb body_effect body = true
               /\ output (run eng p schedule)
                  = (output p ++ body ++ closing e l (run eng p schedule))%list.
Proof.
  intros Hc Hne.
  induction schedule as [|ev rest IH] using rev_ind.
  - exists []. split; [reflexivity|].
    unfold run, closing. cbn [fold_left].
    destruct (main_at p) as [| |c] eqn:Em; try now rewrite !app_nil_r.
    now elim (Hne c).
  - rewrite run_snoc. destruct IH as (body & Hb & Ho).
    pose proof (run_consistent eng e l rest p Hc) as Hr.
    destruct (main_at (run eng p rest)) as [| |c] eqn:Em.
    + destruct (step_output eng e l (run eng p rest) ev Hr) as (t & Ht & Hs);
        [congruence|].
      exists (body ++ t)%list. split; [now rewrite forallb_app, Hb, Ht|].
      rewrite Hs, Ho. unfold closing at 1. rewrite Em.
      now rewrite app_nil_r, !app_assoc.
    + destruct (step_output eng e l (run eng p rest) ev Hr) as (t & Ht & Hs);
        [congruence|].
      exists (body ++ t)%list. split; [now rewrite forallb_app, Hb, Ht|].
      rewrite Hs, Ho. unfold closing at 1. rewrite Em.
      now rewrite app_nil_r, !app_assoc.
    + exists body. split; [assumption|].
      unfold step. now rewrite Em.
Qed.

(* ===================================================================== *)
(** ** Runs of the process *)
(* ===================================================================== *)

Lemma started_fields argv eng e :
  playbin eng = Some e ->
  started argv eng =
    {| player := player_of (nth 1 argv "") e (new_loop eng);
       output := startup (nth 1 argv "") e (new_loop eng);
       main_at := in_main_loop; input_at := in_getline; info_at := in_sleep |}.
Proof.
  intros Hp. unfold started, constructor, setupPlayer, bind. cbn.
  rewrite Hp. reflexivity.
Qed.

Lemma body_no_release t : forallb body_effect t = true -> releases t = [].
Proof.
  induction t as [|x rest IH]; [reflexivity|].
  cbn [forallb]. intros H. apply andb_prop in H as [Hx Hr].
  unfold releases in *. cbn [filter]. rewrite (IH Hr).
  now destruct x.
Qed.

Lemma body_no_start t :
  forallb body_effect t = true -> filter starts_threads_or_playback t = [].
Proof.
  induction t as [|x rest IH]; [reflexivity|].
  cbn [forallb]. intros H. apply andb_prop in H as [Hx Hr].
  cbn [filter]. rewrite (IH Hr).
  now destruct x.
Qed.

(** The trace of [main] once the playbin is made. *)
Lemma main_trace argv eng schedule e :
  2 <= Z.of_nat (List.length argv) -> playbin eng = Some e ->
  exists body,
    forallb body_effect body = true
    /\ effects (main argv eng schedule)
       = (startup (nth 1 argv "") e (new_loop eng) ++ body
          ++ match exit_code (main argv eng schedule) with
             | Some _ => teardown e (new_loop eng)
             | None => []
             end)%list.
Proof.
  intros H Hp.
  destruct (main_started argv eng schedule e H Hp) as [Hm Hc].
  destruct (run_output eng e (new_loop eng) (started argv eng) schedule Hc)
    as (body & Hb & Ho).
  { rewrite (started_fields argv eng e Hp). cbn. congruence. }
  exists body. split; [assumption|].
  rewrite Hm. unfold outcome_of. cbn [effects exit_code].
  rewrite Ho. unfold closing.
  rewrite (started_fields argv eng e Hp) at 1. cbn [output].
  now destruct (main_at (run eng (started argv eng) schedule)).
Qed.

(** In every run the pipeline and the main loop are given back exactly
    once, by the teardown of a process that ends, and not at all as long
    as it has not ended. *)
Theorem run_releases_only_at_exit
    (argv : list string) (eng : Engine) (schedule : list event) (e : GstElement) :
  2 <= Z.of_nat (List.length argv) -> playbin eng = Some e ->
  releases (effects (main argv eng schedule))
  = match exit_code (main argv eng schedule) with
    | Some _ => [gst_object_unref (ref_element (Some e));
                 g_main_loop_unref (Some (new_loop eng))]
    | None => []
    end.
Proof.
  intros H Hp.
  destruct (main_trace argv eng schedule e H Hp) as (body & Hb & ->).
  unfold releases. rewrite !filter_app.
  fold (releases body). rewrite (body_no_release body Hb).
  now destruct (exit_code (main argv eng schedule)).
Qed.

Lemma run_releases_only_at_exit_witness :
  releases (effects (main ["player"; "http://h/s.m3u8"] (engine_with (Some 1%nat))
                       [stdin_line "a1"; info_wakes; stdin_line "q"]))
  = [gst_object_unref (ref_element (Some 1%nat)); g_main_loop_unref (Some 2%nat)].
Proof.
  assert (H1 : 2 <= Z.of_nat (List.length ["player"; "http://h/s.m3u8"]))
    by (vm_compute; discriminate).
  assert (H2 : playbin (engine_with (Some 1%nat)) = Some 1%nat) by reflexivity.
  exact (run_releases_only_at_exit ["player"; "http://h/s.m3u8"]
           (engine_with (Some 1%nat))
           [stdin_line "a1"; info_wakes; stdin_line "q"] 1%nat H1 H2).
Defined.

(** Whatever the schedule, the pipeline is set to PLAYING once, each of the
    two threads is started once and the main loop is entered once, all of
    it before the first event: no event starts a thread, restarts
    playback or runs the loop again. *)
Theorem run_starts_once
    (argv : list string) (eng : Engine) (schedule : list event) (e : GstElement) :
  2 <= Z.of_nat (List.length argv) -> playbin eng = Some e ->
  filter starts_threads_or_playback (effects (main argv eng schedule))
  = [gst_element_set_state (Some e) GST_STATE_PLAYING;
     thread_start infoThread;
     thread_start inputThread;
     g_main_loop_run (Some (new_loop eng))].
Proof.
  intros H Hp.
  destruct (main_trace argv eng schedule e H Hp) as (body & Hb & ->).
  rewrite !filter_app, (body_no_start body Hb).
  now destruct (exit_code (main argv eng schedule)).
Qed.

Lemma run_starts_once_witness :
  filter starts_threads_or_playback
    (effects (main ["player"; "http://h/s.m3u8"] (engine_with (Some 1%nat))
                [info_wakes; info_wakes; stdin_line "a1"]))
  = [gst_element_set_state (Some 1%nat) GST_STATE_PLAYING;
     thread_start infoThread; thread_start inputThread;
     g_main_loop_run (Some 2%nat)].
Proof.
  assert (H1 : 2 <= Z.of_nat (List.length ["player"; "http://h/s.m3u8"]))
    by (vm_compute; discriminate).
  assert (H2 : playbin (engine_with (Some 1%nat)) = Some 1%nat) by reflexivity.
  exact (run_starts_once ["player"; "http://h/s.m3u8"]
           (engine_with (Some 1%nat))
           [info_wakes; info_wakes; stdin_line "a1"] 1%nat H1 H2).
Defined.

(** *** The join waits for the input thread *)

Lemma settle_waits p :
  input_at p = in_getline -> (forall c, main_at p <> exited c) ->
  input_at (settle p) = in_getline /\ (forall c, main_at (settle p) <> exited c).
Proof.
  destruct p as [o out mpc ipc fpc]. cbn. intros -> Hne.
  unfold settle. cbn.
  destruct mpc as [| |c]; [| |now elim (Hne c)].
  - destruct (loop_is_running o); cbn; split; congruence.
  - cbn. split; congruence.
Qed.

Lemma step_waits eng p ev :
  is_stdin ev = false ->
  input_at p = in_getline -> (forall c, main_at p <> exited c) ->
  input_at (step eng p ev) = in_getline
  /\ (forall c, main_at (step eng p ev) <> exited c).
Proof.
  intros Hev Hi Hne. unfold step.
  destruct (main_at p) as [| |c] eqn:Em; [| |now elim (Hne c)];
    destruct ev as [msg|cmd| |]; try discriminate.
  - destruct (exec_fields (handleBusMessage msg) p) as (_ & _ & Hm & Hin & _).
    apply settle_waits; [congruence|]. rewrite Hm. congruence.
  - destruct (info_at p); [|split; congruence].
    destruct (exec_fields (showStreamDetails_awake eng) p)
      as (_ & _ & Hm & Hin & _).
    cbn [at_info input_at main_at]. split; congruence.
  - split; congruence.
  - destruct (info_at p); [|split; congruence].
    destruct (exec_fields (showStreamDetails_awake eng) p)
      as (_ & _ & Hm & Hin & _).
    cbn [at_info input_at main_at]. split; congruence.
Qed.

Lemma run_waits eng schedule : forall p,
  forallb (fun ev => negb (is_stdin ev)) schedule = true ->
  input_at p = in_getline -> (forall c, main_at p <> exited c) ->
  input_at (run eng p schedule) = in_getline
  /\ (forall c, main_at (run eng p schedule) <> exited c).
Proof.
  induction schedule as [|ev rest IH]; intros p Hs Hi Hne; [now split|].
  cbn [forallb] in Hs. apply andb_prop in Hs as [Hev Hr].
  apply negb_true_iff in Hev.
  destruct (step_waits eng p ev Hev Hi Hne) as [Hi' Hne'].
  unfold run. cbn [fold_left]. now apply IH.
Qed.

(** The process cannot end while the input thread is inside
    [std::getline]: from any state in which that thread waits for a line
    and [main] has not returned, no bus message (error and end of stream
    included) and no wake-up of the inspector makes [main] return, and
    the thread is still waiting afterwards.  Only a line or the end of
    standard input can let the join go through. *)
Theorem no_exit_while_in_getline
    (eng : Engine) (p : process) (schedule : list event) :
  input_at p = in_getline -> exit_code (outcome_of p) = None ->
  forallb (fun ev => negb (is_stdin ev)) schedule = true ->
  exit_code (outcome_of (run eng p schedule)) = None
  /\ input_at (run eng p schedule) = in_getline.
Proof.
  intros Hi Hx Hs.
  assert (Hne : forall c, main_at p <> exited c).
  { intros c Hc. unfold outcome_of in Hx. cbn [exit_code] in Hx.
    rewrite Hc in Hx. discriminate. }
  destruct (run_waits eng schedule p Hs Hi Hne) as [Hi' Hne'].
  split; [|assumption].
  unfold outcome_of. cbn [exit_code].
  destruct (main_at (run eng p schedule)) as [| |c]; try reflexivity.
  now elim (Hne' c).
Qed.

Lemma no_exit_while_in_getline_witness :
  exit_code
    (outcome_of
       (run (engine_with (Some 1%nat)) waiting_process
          [bus_message (GST_MESSAGE_ERROR (Some "lost") None);
           info_wakes; bus_message GST_MESSAGE_EOS])) = None.
Proof.
  apply (no_exit_while_in_getline (engine_with (Some 1%nat)) waiting_process
           [bus_message (GST_MESSAGE_ERROR (Some "lost") None);
            info_wakes; bus_message GST_MESSAGE_EOS]);
    reflexivity.
Defined.

(** *** Nothing stops the player but "q", an error or the end of stream *)

Lemma handleBusMessage_calm msg o :
  stops_loop msg = false ->
  object_of (handleBusMessage msg o) = o
  /\ existsb is_loop_quit (effects_of (handleBusMessage msg o)) = false.
Proof.
  destruct msg as [err debug| |src old current pending|kind src];
    try discriminate; intros _.
  - unfold handleBusMessage, bind, this.
    now destruct (same_object src (m_pipeline o)).
  - now split.
Qed.

Lemma handle_line_calm cmd o :
  cmd <> "q" ->
  object_of (handle_line cmd o) = o
  /\ value_of (handle_line cmd o) = loop_continue
  /\ existsb is_loop_quit (effects_of (handle_line cmd o)) = false.
Proof.
  intros Hq. rewrite handle_line_other by assumption.
  repeat split. cbn [effects_of snd].
  destruct (_ && _)%bool; [|reflexivity].
  destruct (stoi (substr1 cmd)); try reflexivity.
  now destruct (Ascii.eqb (at0 cmd) "a").
Qed.

Lemma inspector_no_quit t :
  forallb inspector_effect t = true -> existsb is_loop_quit t = false.
Proof.
  induction t as [|x rest IH]; [reflexivity|].
  cbn [forallb existsb]. intros H. apply andb_prop in H as [Hx Hr].
  rewrite (IH Hr). now destruct x.
Qed.

Lemma settle_running p :
  main_at p = in_main_loop -> loop_is_running (player p) = true -> settle p = p.
Proof.
  destruct p as [o out mpc ipc fpc]. cbn. intros -> Hr.
  unfold settle. cbn. now rewrite Hr.
Qed.

(** An event that does not stop the loop leaves the main thread in it and
    the object as it was, and asks no quit. *)
Lemma step_keeps_looping eng p ev :
  stops ev = false ->
  main_at p = in_main_loop -> loop_is_running (player p) = true ->
  main_at (step eng p ev) = in_main_loop
  /\ player (step eng p ev) = player p
  /\ info_at (step eng p ev) = match ev with
                               | info_wakes => info_returned
                               | _ => info_at p
                               end
  /\ (exists t, output (step eng p ev) = (output p ++ t)%list
               /\ existsb is_loop_quit t = false
               /\ t = match ev with
                       | bus_message msg =>
                           effects_of (handleBusMessage msg (player p))
                       | stdin_line cmd =>
                           match input_at p with
                           | in_getline => effects_of (handle_line cmd (player p))
                           | input_returned => []
                           end
                       | stdin_eof => []
                       | info_wakes =>
                           match info_at p with
                           | in_sleep =>
                               effects_of (showStreamDetails_awake eng (player p))
                           | info_returned => []
                           end
                       end)
  /\ input_at (step eng p ev)
     = match ev with
       | stdin_eof => input_returned
       | stdin_line _ =>
           match input_at p with
           | in_getline => if m_quit (player p) then input_returned else in_getline
           | input_returned => input_returned
           end
       | _ => input_at p
       end.
Proof.
  intros Hev Hm Hr. unfold step. rewrite Hm.
  destruct ev as [msg|cmd| |]; cbn [stops] in Hev.
  - destruct (handleBusMessage_calm msg (player p) Hev) as [Ho Hq].
    destruct (exec_fields (handleBusMessage msg) p) as (F1 & F2 & F3 & F4 & F5).
    rewrite settle_running by congruence.
    repeat split; try congruence.
    eexists. split; [exact F2 | split; [exact Hq | reflexivity]].
  - apply String.eqb_neq in Hev.
    destruct (handle_line_calm cmd (player p) Hev) as (Ho & Hv & Hq).
    destruct (input_at p) eqn:Ei.
    + destruct (input_thread_line_fields cmd p) as (F1 & F2 & F3 & F5).
      rewrite settle_running by congruence.
      repeat split; try congruence.
      * eexists. split; [exact F2 | split; [exact Hq | reflexivity]].
      * unfold input_thread_line, exec.
        destruct (handle_line cmd (player p)) as [[c o] t].
        cbn [value_of object_of fst snd] in Hv, Ho. subst c o.
        cbn [player]. destruct (m_quit (player p)); cbn; congruence.
    + repeat split; try congruence.
      exists []. now rewrite app_nil_r.
  - destruct (input_at p) eqn:Ei.
    + rewrite settle_running by assumption. cbn.
      repeat split; try congruence. exists []. now rewrite app_nil_r.
    + repeat split; try congruence. exists []. now rewrite app_nil_r.
  - destruct (info_at p) eqn:Ef.
    + destruct (exec_fields (showStreamDetails_awake eng) p)
        as (F1 & F2 & F3 & F4 & F5).
      cbn [at_info main_at player output input_at info_at].
      rewrite showStreamDetails_awake_keeps in F1.
      repeat split; try congruence.
      eexists. split; [exact F2 | split; [|reflexivity]].
      apply inspector_no_quit, showStreamDetails_awake_inspector.
    + repeat split; try congruence. exists []. now rewrite app_nil_r.
Qed.

Lemma run_keeps_looping eng schedule : forall p,
  forallb (fun ev => negb (stops ev)) schedule = true ->
  main_at p = in_main_loop -> loop_is_running (player p) = true ->
  existsb is_loop_quit (output p) = false ->
  main_at (run eng p schedule) = in_main_loop
  /\ player (run eng p schedule) = player p
  /\ existsb is_loop_quit (output (run eng p schedule)) = false.
Proof.
  induction schedule as [|ev rest IH]; intros p Hs Hm Hr Hq; [now repeat split|].
  cbn [forallb] in Hs. apply andb_prop in Hs as [Hev Hrest].
  apply negb_true_iff in Hev.
  destruct (step_keeps_looping eng p ev Hev Hm Hr)
    as (Hm' & Hp' & _ & (t & Ho & Hq' & _) & _).
  unfold run. cbn [fold_left].
  destruct (IH (step eng p ev) Hrest Hm') as (I1 & I2 & I3).
  - now rewrite Hp'.
  - now rewrite Ho, existsb_app, Hq, Hq'.
  - fold (run eng (step eng p ev) rest). repeat split; congruence.
Qed.

(** The player never stops by itself: in a run without a "q" line, an
    error or an end of stream (standard input may even close) the main
    loop is never asked to quit and [main] does not return. *)
Theorem runs_until_told_to_stop
    (argv : list string) (eng : Engine) (schedule : list event) (e : GstElement) :
  2 <= Z.of_nat (List.length argv) -> playbin eng = Some e ->
  forallb (fun ev => negb (stops ev)) schedule = true ->
  exit_code (main argv eng schedule) = None
  /\ existsb is_loop_quit (effects (main argv eng schedule)) = false.
Proof.
  intros H Hp Hs.
  destruct (main_started argv eng schedule e H Hp) as [-> _].
  destruct (run_keeps_looping eng schedule (started argv eng) Hs)
    as (Hm & _ & Hq);
    try (rewrite (started_fields argv eng e Hp); reflexivity).
  unfold outcome_of. cbn [exit_code effects]. rewrite Hm. now split.
Qed.

Lemma runs_until_told_to_stop_witness :
  exit_code (main ["player"; "http://h/s.m3u8"] (engine_with (Some 1%nat))
               [stdin_line "a1"; info_wakes; stdin_line "quit"; stdin_eof])
  = None.
Proof.
  assert (H1 : 2 <= Z.of_nat (List.length ["player"; "http://h/s.m3u8"]))
    by (vm_compute; discriminate).
  assert (H2 : playbin (engine_with (Some 1%nat)) = Some 1%nat) by reflexivity.
  apply (runs_until_told_to_stop ["player"; "http://h/s.m3u8"]
           (engine_with (Some 1%nat)) _ 1%nat H1 H2).
  reflexivity.
Defined.

(** *** Quitting, and the line that is still read after the loop stopped *)

Lemma run_cons eng p ev rest :
  run eng p (ev :: rest) = run eng (step eng p ev) rest.
Proof. reflexivity. Qed.

Lemma step_keeps_playing eng e l p ev :
  calm ev = true -> playing e l p ->
  playing e l (step eng p ev)
  /\ player (step eng p ev) = player p.
Proof.
  unfold calm. intros Hev (Hm & Hi & Hp & Hl & Hr & Hq).
  apply andb_prop in Hev as [Hs Hc].
  apply negb_true_iff in Hs, Hc.
  destruct (step_keeps_looping eng p ev Hs Hm Hr) as (Hm' & Hp' & _ & _ & Hi').
  split; [|assumption].
  unfold playing. rewrite Hp'. repeat split; try assumption.
  rewrite Hi'. destruct ev; try discriminate; try assumption.
  now rewrite Hi, Hq.
Qed.

Lemma run_keeps_playing eng e l schedule : forall p,
  forallb calm schedule = true -> playing e l p ->
  playing e l (run eng p schedule)
  /\ player (run eng p schedule) = player p.
Proof.
  induction schedule as [|ev rest IH]; intros p Hs Hp; [now split|].
  cbn [forallb] in Hs. apply andb_prop in Hs as [Hev Hrest].
  destruct (step_keeps_playing eng e l p ev Hev Hp) as [Hp' Ho].
  unfold run. cbn [fold_left].
  destruct (IH (step eng p ev) Hrest Hp') as [I1 I2].
  split; [exact I1 | exact (eq_trans I2 Ho)].
Qed.

Lemma step_q_playing eng e l p :
  playing e l p ->
  main_at (step eng p (stdin_line "q")) = exited 0
  /\ output (step eng p (stdin_line "q"))
     = (output p ++ shutting_down (player p) ++ teardown e l)%list.
Proof.
  destruct p as [[u pl ml q rn] out mpc ipc fpc].
  unfold playing. cbn. intros (-> & -> & -> & -> & -> & ->).
  split; [reflexivity|]. cbn. now rewrite <- !app_assoc.
Qed.

Lemma handle_line_effects_same cmd o o' :
  m_pipeline o = m_pipeline o' -> m_mainloop o = m_mainloop o' ->
  effects_of (handle_line cmd o) = effects_of (handle_line cmd o').
Proof.
  intros Hp Hl.
  destruct (string_dec cmd "q") as [->|Hq].
  - rewrite !handle_line_q. cbn. now rewrite Hl.
  - rewrite !handle_line_other by assumption. cbn.
    unfold audio_switched, subtitle_switched. now rewrite Hp.
Qed.

(** The main thread waits in [join] and a line arrives: the line is still
    handled, then the loop sees [m_quit] (or has met "q") and the process
    ends. *)
Lemma step_line_in_join eng e l p cmd :
  main_at p = in_join -> input_at p = in_getline ->
  m_pipeline (player p) = Some e -> m_mainloop (player p) = Some l ->
  loop_is_running (player p) = false -> m_quit (player p) = true ->
  main_at (step eng p (stdin_line cmd)) = exited 0
  /\ output (step eng p (stdin_line cmd))
     = (output p ++ effects_of (handle_line cmd (player p)) ++ teardown e l)%list.
Proof.
  destruct p as [[u pl ml q rn] out mpc ipc fpc]. cbn.
  intros -> -> -> -> -> ->.
  unfold step, input_thread_line, exec. cbn [main_at input_at player output].
  set (o := {| m_streamUrl := u; m_pipeline := Some e; m_mainloop := Some l;
               m_quit := true; loop_is_running := false |}).
  destruct (handle_line_quits_or_keeps cmd o) as [Ho|[Ho _]];
    destruct (handle_line cmd o) as [[c o'] t];
    cbn [object_of effects_of fst snd] in *; subst o';
    destruct c; cbn; now rewrite <- ?app_assoc.
Qed.

Lemma step_stop_playing eng e l p msg :
  stops_loop msg = true -> playing e l p ->
  let p' := step eng p (bus_message msg) in
  main_at p' = in_join /\ input_at p' = in_getline
  /\ m_pipeline (player p') = Some e /\ m_mainloop (player p') = Some l
  /\ loop_is_running (player p') = false /\ m_quit (player p') = true
  /\ output p' = (output p ++ effects_of (handleBusMessage msg (player p)))%list.
Proof.
  destruct p as [[u pl ml q rn] out mpc ipc fpc].
  unfold playing. cbn. intros Hs (-> & -> & -> & -> & -> & ->).
  destruct msg as [err debug| | |]; try discriminate; cbn;
    now rewrite ?app_nil_r.
Qed.



(** An error or the end of the stream that arrives while the input thread
    waits in [std::getline] does not end the process, and the thread
    keeps waiting: the line that comes next, whatever it is, is still
    carried out by the loop body (a track switch is still made), after
    the loop has been stopped. *)
Theorem line_after_stream_end_is_executed
    (eng : Engine) (e : GstElement) (l : GMainLoop) (p : process)
    (schedule : list event) (msg : GstMessage) (cmd : string) :
  playing e l p -> forallb calm schedule = true -> stops_loop msg = true ->
  let stopped := run eng p (schedule ++ [bus_message msg]) in
  exit_code (outcome_of stopped) = None
  /\ input_at stopped = in_getline
  /\ output stopped
     = (output (run eng p schedule)
        ++ effects_of (handleBusMessage msg (player p)))%list
  /\ exists rest,
       output (run eng p (schedule ++ [bus_message msg; stdin_line cmd]))
       = (output stopped ++ effects_of (handle_line cmd (player p)) ++ rest)%list.
Proof.
  intros Hp Hs Hst stopped.
  destruct (run_keeps_playing eng e l schedule p Hs Hp) as [Hpl Ho].
  destruct (step_stop_playing eng e l _ msg Hst Hpl)
    as (S1 & S2 & S3 & S4 & S5 & S6 & S7).
  assert (Es : stopped = step eng (run eng p schedule) (bus_message msg)).
  { subst stopped. now rewrite run_snoc. }
  rewrite Es.
  split; [unfold outcome_of; cbn [exit_code]; now rewrite S1|].
  split; [assumption|].
  split; [now rewrite S7, Ho|].
  destruct (step_line_in_join eng e l _ cmd S1 S2 S3 S4 S5 S6) as [_ Hout].
  exists (teardown e l).
  rewrite run_app, !run_cons. change (run eng ?q []) with q.
  rewrite Hout. do 2 f_equal.
  apply handle_line_effects_same.
  - rewrite S3. destruct Hp as (_ & _ & -> & _). reflexivity.
  - rewrite S4. destruct Hp as (_ & _ & _ & -> & _). reflexivity.
Qed.

Lemma line_after_stream_end_is_executed_witness :
  exists rest,
    output (run (engine_with (Some 1%nat)) waiting_process
              ([info_wakes] ++ [bus_message GST_MESSAGE_EOS; stdin_line "a1"]))
    = (output (run (engine_with (Some 1%nat)) waiting_process
                 ([info_wakes] ++ [bus_message GST_MESSAGE_EOS]))
       ++ effects_of (handle_line "a1" (player waiting_process)) ++ rest)%list.
Proof.
  assert (H1 : playing 1%nat 2%nat waiting_process)
    by (unfold playing; repeat split; reflexivity).
  assert (H2 : forallb calm [info_wakes] = true) by reflexivity.
  assert (H3 : stops_loop GST_MESSAGE_EOS = true) by reflexivity.
  exact (proj2 (proj2 (proj2
           (line_after_stream_end_is_executed (engine_with (Some 1%nat))
              1%nat 2%nat waiting_process [info_wakes] GST_MESSAGE_EOS "a1"
              H1 H2 H3)))).
Defined.

(** *** The input thread against [handleUserInput] *)

Lemma has_q_false lines : has_q lines = false -> ~ In "q" lines.
Proof.
  unfold has_q. intros H Hin.
  assert (E : existsb (String.eqb "q") lines = true).
  { apply existsb_exists. exists "q". split; [assumption | reflexivity]. }
  congruence.
Qed.

Lemma has_q_split lines :
  has_q lines = true ->
  exists before unread, lines = (before ++ "q" :: unread)%list /\ ~ In "q" before.
Proof.
  unfold has_q. induction lines as [|cmd rest IH]; [discriminate|].
  cbn [existsb]. destruct (String.eqb_spec "q" cmd) as [<-|Hne].
  - intros _. exists [], rest. split; [reflexivity | intros []].
  - cbn [orb]. intros H. destruct (IH H) as (before & unread & -> & Hn).
    exists (cmd :: before), unread. split; [reflexivity|].
    intros [E|Hin]; [congruence | contradiction].
Qed.

Lemma lines_are_calm lines :
  ~ In "q" lines -> forallb calm (map stdin_line lines) = true.
Proof.
  induction lines as [|cmd rest IH]; intros Hn; [reflexivity|].
  cbn [map forallb]. rewrite IH by (intros Hin; apply Hn; now right).
  rewrite andb_true_r. unfold calm. cbn [stops closes_stdin negb andb].
  rewrite andb_true_r. apply negb_true_iff, String.eqb_neq.
  intros ->. apply Hn. now left.
Qed.

Lemma run_lines_output eng e l lines : forall p,
  playing e l p -> ~ In "q" lines ->
  output (run eng p (map stdin_line lines))
  = (output p ++ per_line (player p) lines)%list.
Proof.
  induction lines as [|cmd rest IH]; intros p Hp Hn.
  - cbn. now rewrite app_nil_r.
  - assert (Hc : calm (stdin_line cmd) = true).
    { pose proof (lines_are_calm [cmd]) as Hl. cbn [map forallb] in Hl.
      rewrite andb_true_r in Hl. apply Hl.
      intros [->|[]]. apply Hn. now left. }
    destruct (step_keeps_playing eng e l p _ Hc Hp) as [Hp' Ho].
    pose proof Hp as (Hm & Hi & _ & _ & Hr & _).
    assert (Hs : stops (stdin_line cmd) = false).
    { unfold calm in Hc. apply andb_prop in Hc as [Hc _].
      now apply negb_true_iff in Hc. }
    destruct (step_keeps_looping eng p _ Hs Hm Hr)
      as (_ & _ & _ & (t & Hout & _ & Ht) & _).
    rewrite Hi in Ht. subst t.
    cbn [map]. rewrite run_cons, IH by (assumption || (intros Hin; apply Hn; now right)).
    rewrite Hout, Ho. unfold per_line. cbn [flat_map].
    now rewrite app_assoc.
Qed.

(** Once the main loop runs and the input thread waits in
    [std::getline], lines alone make the process do exactly what the loop
    of [handleUserInput] does on those lines, followed by the teardown if
    there is a "q" among them: the input thread of the process and the
    loop of the source agree.  The process then ends, with code 0,
    exactly when there is a "q". *)
Theorem stdin_run_follows_handleUserInput
    (eng : Engine) (e : GstElement) (l : GMainLoop) (p : process)
    (lines : list string) :
  playing e l p ->
  let p' := run eng p (map stdin_line lines) in
  exit_code (outcome_of p') = (if has_q lines then Some 0 else None)
  /\ output p'
     = (output p
        ++ effects_of (handleUserInput_loop lines (player p))
        ++ (if has_q lines then teardown e l else []))%list.
Proof.
  intros Hp p'. subst p'.
  assert (Hq0 : m_quit (player p) = false) by apply Hp.
  destruct (has_q lines) eqn:Eq.
  - destruct (has_q_split lines Eq) as (before & unread & -> & Hn).
    rewrite handleUserInput_loop_first_q by assumption.
    destruct (run_keeps_playing eng e l (map stdin_line before) p
                (lines_are_calm before Hn) Hp) as [Hpl Ho].
    rewrite map_app. cbn [map]. rewrite run_app, run_cons.
    destruct (step_q_playing eng e l _ Hpl) as [Hx Hout].
    rewrite (run_exited eng _ _ 0 Hx).
    unfold outcome_of. cbn [exit_code effects_of snd].
    rewrite Hx, Hout, Ho.
    rewrite (run_lines_output eng e l before p Hp Hn).
    split; [reflexivity|]. now rewrite <- !app_assoc.
  - pose proof (has_q_false lines Eq) as Hn.
    rewrite handleUserInput_loop_no_q by assumption.
    destruct (run_keeps_playing eng e l (map stdin_line lines) p
                (lines_are_calm lines Hn) Hp) as [Hpl _].
    unfold outcome_of. cbn [exit_code effects_of snd].
    destruct Hpl as (-> & _). split; [reflexivity|].
    rewrite (run_lines_output eng e l lines p Hp Hn).
    now rewrite app_nil_r.
Qed.

Lemma stdin_run_follows_handleUserInput_witness :
  exit_code
    (outcome_of (run (engine_with (Some 1%nat)) waiting_process
                   (map stdin_line ["a1"; "q"; "s0"]))) = Some 0.
Proof.
  assert (H1 : playing 1%nat 2%nat waiting_process)
    by (unfold playing; repeat split; reflexivity).
  exact (proj1 (stdin_run_follows_handleUserInput (engine_with (Some 1%nat))
                  1%nat 2%nat waiting_process ["a1"; "q"; "s0"] H1)).
Defined.

(** *** From set-up to playback *)

(** [startPlayback] goes past its guard exactly when [setupPlayer]
    succeeded, whatever the object held before: after a successful set-up
    the main loop is entered on the loop just made, and after a failed
    one the null pipeline is reported and neither thread nor playback nor
    loop is started. *)
Theorem playback_starts_iff_setup_succeeded (eng : Engine) (o : MyVideoPlayer) :
  let set_up := setupPlayer eng o in
  let entered := startPlayback_enter (object_of set_up) in
  value_of entered = value_of set_up
  /\ (value_of set_up = true ->
      m_pipeline (object_of entered) = playbin eng
      /\ m_mainloop (object_of entered) = Some (new_loop eng)
      /\ loop_is_running (object_of entered) = true
      /\ In (g_main_loop_run (Some (new_loop eng))) (effects_of entered))
  /\ (value_of set_up = false ->
      effects_of entered = [cerr ("Pipeline not initialized!" ++ endl)]
      /\ filter starts_threads_or_playback (effects_of entered) = []).
Proof.
  destruct eng as [[e|] l nv na nt tg], o as [u p m q b]; cbn;
    repeat split; try discriminate; tauto.
Qed.

Lemma playback_starts_iff_setup_succeeded_witness :
  loop_is_running
    (object_of (startPlayback_enter
                  (object_of (setupPlayer (engine_with (Some 1%nat))
                                (MyVideoPlayer_new "http://h/s.m3u8")))))
  = true.
Proof.
  apply (playback_starts_iff_setup_succeeded (engine_with (Some 1%nat))
           (MyVideoPlayer_new "http://h/s.m3u8")).
  reflexivity.
Defined.
